(** * Shared Address Links: the graph builder ([prep.py]) and the filter
      engine ([app.py]) as Rocq functions, and the properties of the
      specification checked against them.

    The two scripts are pandas pipelines.  A data frame is modelled by its
    columns, a column by the list of its cells; the amounts are IEEE 754
    binary64 numbers (Rocq's primitive floats), as pandas' [float64] is. *)

From Stdlib Require Import List Bool ZArith Lia String Ascii.
From Stdlib Require Import DecimalString DecimalPos DecimalZ Permutation.
From Stdlib Require Import Floats.
Import ListNotations.

Local Open Scope string_scope.
Local Open Scope Z_scope.

Set Implicit Arguments.

(** ** Cells *)

(** A cell of a data frame read from a CSV file: a missing value ([NaN]), a
    text or an integer.  Amounts get a column of floats of their own once
    they are normalised; the other columns the scripts read hold names,
    types, addresses and identifiers, and no fractional number. *)
Inductive cell : Type :=
| NaN
| Str (s : string)
| Int (z : Z).

Definition cell_eqb (a b : cell) : bool :=
  match a, b with
  | NaN, NaN => true
  | Str s, Str t => String.eqb s t
  | Int x, Int y => Z.eqb x y
  | _, _ => false
  end.

Definition notna (c : cell) : bool :=
  match c with NaN => false | _ => true end.

(** The order pandas sorts group keys by: numbers by value, texts by code
    point.  A column holds one kind of value; across kinds the order below
    is a convention of the model. *)
Definition cell_compare (a b : cell) : comparison :=
  match a, b with
  | Int x, Int y => Z.compare x y
  | Int _, _ => Lt
  | Str _, Int _ => Gt
  | Str s, Str t => String.compare s t
  | Str _, NaN => Lt
  | NaN, NaN => Eq
  | NaN, _ => Gt
  end.

(** [str(z)] for a Python integer. *)
Definition str_of_Z (z : Z) : string :=
  NilZero.string_of_int (Z.to_int z).

(** [Series.astype(str)] on a column of texts or of integers: a missing
    value prints as ["nan"]. *)
Definition astype_str (c : cell) : string :=
  match c with
  | NaN => "nan"
  | Str s => s
  | Int z => str_of_Z z
  end.

(** ** Python's string operations *)

(** [s.replace(c, "")] for a one-character pattern [c]. *)
Fixpoint remove_char (c : ascii) (s : string) : string :=
  match s with
  | EmptyString => EmptyString
  | String a s' =>
      if Ascii.eqb a c then remove_char c s' else String a (remove_char c s')
  end.

(** The white space [float] strips from the ends of its ASCII text
    ([Py_ISSPACE]): tab to carriage return, and the space. *)
Definition is_space (a : ascii) : bool :=
  let n := nat_of_ascii a in
  ((9 <=? n) && (n <=? 13) || (n =? 32))%nat.

Definition is_digit (a : ascii) : bool :=
  let n := nat_of_ascii a in ((48 <=? n) && (n <=? 57))%nat.

Definition digit_val (a : ascii) : Z := Z.of_nat (nat_of_ascii a) - 48.

Definition lower (a : ascii) : ascii :=
  let n := nat_of_ascii a in
  if ((65 <=? n) && (n <=? 90))%nat then ascii_of_nat (n + 32) else a.

Fixpoint lstrip (l : list ascii) : list ascii :=
  match l with
  | a :: l' => if is_space a then lstrip l' else l
  | [] => []
  end.

Definition strip (l : list ascii) : list ascii :=
  rev (lstrip (rev (lstrip l))).

(** ** [float(s)] *)

(** A text is kept as the bytes of its UTF-8 encoding, as the CSV file has
    it.  [float] first rewrites its argument to ASCII, code point by code
    point: a code point below 127 is kept, a Unicode white space becomes a
    space, a Unicode decimal digit becomes the ASCII digit of its value, and
    anything else becomes a question mark, on which the parse then fails. *)

Definition byte (a : ascii) : Z := Z.of_nat (nat_of_ascii a).

Definition continuation (a : ascii) : bool :=
  (128 <=? byte a) && (byte a <=? 191).

(** The white space among the code points from 127 on. *)
Definition unicode_space (cp : Z) : bool :=
  (cp =? 133) || (cp =? 160) || (cp =? 5760)
  || (8192 <=? cp) && (cp <=? 8202)
  || (cp =? 8232) || (cp =? 8233) || (cp =? 8239) || (cp =? 8287)
  || (cp =? 12288).

(** The decimal digits of Unicode 14 come in runs of ten, from the digit
    zero to the digit nine; these are the code points of the zeros. *)
Definition decimal_zeros : list Z :=
  [1632; 1776; 1984; 2406; 2534; 2662; 2790; 2918; 3046; 3174; 3302;
   3430; 3558; 3664; 3792; 3872; 4160; 4240; 6112; 6160; 6470; 6608; 6784;
   6800; 6992; 7088; 7232; 7248; 42528; 43216; 43264; 43472; 43504; 43600;
   44016; 65296; 66720; 68912; 69734; 69872; 69942; 70096; 70384; 70736;
   70864; 71248; 71360; 71472; 71904; 72016; 72784; 73040; 73120; 92768;
   92864; 93008; 120782; 120792; 120802; 120812; 120822; 123200; 123632;
   125264; 130032].

Definition to_decimal (cp : Z) : option Z :=
  match find (fun z => (z <=? cp) && (cp <? z + 10)) decimal_zeros with
  | Some z => Some (cp - z)
  | None => None
  end.

Definition ascii_of_Z (z : Z) : ascii := ascii_of_nat (Z.to_nat z).

(** The ASCII character a code point from 127 on is rewritten to. *)
Definition transform_code_point (cp : Z) : ascii :=
  if unicode_space cp then " "%char
  else match to_decimal cp with
       | Some d => ascii_of_Z (48 + d)
       | None => "?"%char
       end.

(** The rewriting of a whole text.  A byte that starts no well-formed UTF-8
    sequence is in no Python string; it is rewritten to a question mark. *)
Fixpoint transform (l : list ascii) : list ascii :=
  match l with
  | [] => []
  | a :: l1 =>
      if byte a <? 127 then a :: transform l1
      else if (194 <=? byte a) && (byte a <=? 223) then
        match l1 with
        | b :: l2 =>
            if continuation b
            then transform_code_point ((byte a - 192) * 64 + (byte b - 128))
                 :: transform l2
            else "?"%char :: transform l1
        | _ => "?"%char :: transform l1
        end
      else if (224 <=? byte a) && (byte a <=? 239) then
        match l1 with
        | b :: c :: l3 =>
            let cp := (byte a - 224) * 4096 + (byte b - 128) * 64 + (byte c - 128) in
            if continuation b && continuation c && (2048 <=? cp)
               && negb ((55296 <=? cp) && (cp <=? 57343))
            then transform_code_point cp :: transform l3
            else "?"%char :: transform l1
        | _ => "?"%char :: transform l1
        end
      else if (240 <=? byte a) && (byte a <=? 244) then
        match l1 with
        | b :: c :: d :: l4 =>
            let cp := (byte a - 240) * 262144 + (byte b - 128) * 4096
                      + (byte c - 128) * 64 + (byte d - 128) in
            if continuation b && continuation c && continuation d
               && (65536 <=? cp) && (cp <=? 1114111)
            then transform_code_point cp :: transform l4
            else "?"%char :: transform l1
        | _ => "?"%char :: transform l1
        end
      else "?"%char :: transform l1
  end.

(** The grammar of Python's [float] constructor on the ASCII text:
    [[sign] (digitpart ["." [digitpart]] | "." digitpart) [("e"|"E") [sign] digitpart]],
    or [[sign] ("inf" | "infinity" | "nan")] in any case, between optional
    white space; [digitpart] is digits with single underscores between them. *)

(** [digitpart]: the digits read (value and count) and the rest of the text;
    [None] when the text does not start with a digit. *)
Fixpoint digits_tail (acc : Z) (n : nat) (l : list ascii) : Z * nat * list ascii :=
  match l with
  | a :: l' =>
      if is_digit a then digits_tail (10 * acc + digit_val a) (S n) l'
      else if Ascii.eqb a "_" then
        match l' with
        | b :: _ => if is_digit b then digits_tail acc n l' else (acc, n, l)
        | [] => (acc, n, l)
        end
      else (acc, n, l)
  | [] => (acc, n, l)
  end.

Definition digitpart (acc : Z) (l : list ascii) : option (Z * nat * list ascii) :=
  match l with
  | a :: _ => if is_digit a then Some (digits_tail acc 0 l) else None
  | [] => None
  end.

Definition sign_of (l : list ascii) : bool * list ascii :=
  match l with
  | "-"%char :: l' => (true, l')
  | "+"%char :: l' => (false, l')
  | _ => (false, l)
  end.

(** The mantissa [m] and the decimal exponent [e] of the text: its value is
    [m * 10 ^ e]. *)
Definition exponent (m : Z) (e : Z) (l : list ascii) : option (Z * Z) :=
  match l with
  | [] => Some (m, e)
  | a :: l' =>
      if Ascii.eqb (lower a) "e" then
        let (neg, l'') := sign_of l' in
        match digitpart 0 l'' with
        | Some (x, _, []) => Some (m, e + (if neg then - x else x))
        | _ => None
        end
      else None
  end.

Definition decimal (l : list ascii) : option (Z * Z) :=
  match digitpart 0 l with
  | Some (i, _, "."%char :: l') =>
      match digitpart i l' with
      | Some (m, k, l'') => exponent m (- Z.of_nat k) l''
      | None => exponent i 0 l'
      end
  | Some (i, _, l') => exponent i 0 l'
  | None =>
      match l with
      | "."%char :: l' =>
          match digitpart 0 l' with
          | Some (m, k, l'') => exponent m (- Z.of_nat k) l''
          | None => None
          end
      | _ => None
      end
  end.

(** [m * 10 ^ e] rounded to the nearest binary64 number, ties to even.  For a
    negative [e] the quotient is taken with enough extra bits for the
    remainder to decide the rounding. *)
Definition round_decimal (neg : bool) (m e : Z) : float :=
  if m =? 0 then (if neg then neg_zero else zero)
  else if 0 <=? e then
    SF2Prim (binary_normalize prec emax (if neg then - (m * 10 ^ e) else m * 10 ^ e) 0 false)
  else
    let d := 10 ^ (- e) in
    let s := 1100 + Z.log2 d in
    let q := (m * 2 ^ s) / d in
    let r := (m * 2 ^ s) mod d in
    let loc := if r =? 0 then SpecFloat.loc_Exact else SpecFloat.loc_Inexact Lt in
    SF2Prim (binary_round_aux prec emax neg (2 * q) (- s - 1) loc).

Definition float_of_string (s : string) : option float :=
  let (neg, l) := sign_of (strip (transform (list_ascii_of_string s))) in
  let w := string_of_list_ascii (map lower l) in
  if (w =? "inf")%string || (w =? "infinity")%string
  then Some (if neg then neg_infinity else infinity)
  else if (w =? "nan")%string then Some nan
  else match decimal l with
       | Some (m, e) => Some (round_decimal neg m e)
       | None => None
       end.

(** ** Exceptions *)

(** The exceptions the builder raises, with what their message carries. *)
Inductive exn : Type :=
| KeyError (column : string)
    (* [df[column]] on a frame without that column *)
| ValueError_float (text : string)
    (* could not convert string to float: 'text' *)
| ValueError_missing (columns : list string).
    (* Missing required columns: [columns] *)

Inductive outcome (A : Type) : Type :=
| Ok (a : A)
| Raise (e : exn).

Arguments Ok {A} a.
Arguments Raise {A} e.

Definition bind {A B : Type} (x : outcome A) (f : A -> outcome B) : outcome B :=
  match x with
  | Ok a => f a
  | Raise e => Raise e
  end.

Notation "x <- c ;; k" := (bind c (fun x => k))
  (at level 61, c at next level, right associativity).

(** ** Data frames *)

(** A frame as read from the CSV file: its columns in order, each with its
    cells; every column has one cell per row. *)
Definition DataFrame : Type := list (string * list cell).

Definition columns (df : DataFrame) : list string := map fst df.

Definition mem_string (c : string) (l : list string) : bool :=
  existsb (String.eqb c) l.

Definition nrows (df : DataFrame) : nat :=
  match df with
  | [] => 0%nat
  | (_, v) :: _ => List.length v
  end.

(** The texts [pd.read_csv] takes for a missing value. *)
Definition na_values : list string :=
  [EmptyString; "#N/A"; "#N/A N/A"; "#NA"; "-1.#IND"; "-1.#QNAN"; "-NaN"; "-nan";
   "1.#IND"; "1.#QNAN"; "<NA>"; "N/A"; "NA"; "NULL"; "NaN"; "None"; "n/a"; "nan";
   "null"].

(** The cell [pd.read_csv] (line 15) makes of a field of a column of texts,
    which is a column with a field that is neither missing, nor a number,
    nor a truth value: a missing value for the texts above, the text itself
    otherwise. *)
Definition read_field (s : string) : cell :=
  if mem_string s na_values then NaN else Str s.

(** [df[c]] *)
Fixpoint getitem (df : DataFrame) (c : string) : outcome (list cell) :=
  match df with
  | [] => Raise (KeyError c)
  | (name, v) :: df' => if String.eqb name c then Ok v else getitem df' c
  end.

(** The column names after [df[c] = ...]. *)
Definition assign_column (c : string) (cols : list string) : list string :=
  if mem_string c cols then cols else cols ++ [c].

(** [Series.astype(float)] on texts: the first text that is no number raises. *)
Fixpoint astype_float (l : list string) : outcome (list float) :=
  match l with
  | [] => Ok []
  | s :: l' =>
      match float_of_string s with
      | None => Raise (ValueError_float s)
      | Some f => fs <- astype_float l' ;; Ok (f :: fs)
      end
  end.

Definition isin (c : cell) (l : list cell) : bool := existsb (cell_eqb c) l.

(** [Series.unique()]: the distinct values in order of first occurrence; a
    missing value is one of them. *)
Fixpoint unique (l : list cell) : list cell :=
  match l with
  | [] => []
  | c :: l' => c :: filter (fun d => negb (cell_eqb d c)) (unique l')
  end.

Fixpoint index_of (c : cell) (l : list cell) : option nat :=
  match l with
  | [] => None
  | d :: l' =>
      if cell_eqb d c then Some 0%nat
      else match index_of c l' with
           | Some i => Some (S i)
           | None => None
           end
  end.

(** [pd.factorize(l)[0]]: the rank of each value among the distinct present
    values in order of first occurrence, and -1 for a missing value. *)
Definition code_of (uniques : list cell) (c : cell) : Z :=
  match index_of c uniques with
  | Some i => Z.of_nat i
  | None => -1
  end.

Definition factorize (l : list cell) : list Z :=
  map (code_of (unique (filter notna l))) l.

(** The [sum] aggregation of a group ([group_sum] of pandas 2.1 and later):
    a compensated sum in row order.  A NaN amount is skipped; the running
    sum [sumx] goes with the compensation [comp] for the low-order bits lost
    so far, which is put back to zero when it is NaN. *)
Definition kahan_step (acc : float * float) (val : float) : float * float :=
  let (sumx, comp) := acc in
  if is_nan val then acc
  else
    let y := (val - comp)%float in
    let t := (sumx + y)%float in
    let c := (t - sumx - y)%float in
    (t, if is_nan c then zero else c).

Definition sum_amounts (l : list float) : float :=
  fst (fold_left kahan_step l (zero, zero)).

(** *** [groupby] *)

Definition key : Type := list cell.

Fixpoint key_eqb (k1 k2 : key) : bool :=
  match k1, k2 with
  | [], [] => true
  | a :: k1', b :: k2' => cell_eqb a b && key_eqb k1' k2'
  | _, _ => false
  end.

Fixpoint key_compare (k1 k2 : key) : comparison :=
  match k1, k2 with
  | [], [] => Eq
  | [], _ :: _ => Lt
  | _ :: _, [] => Gt
  | a :: k1', b :: k2' =>
      match cell_compare a b with
      | Eq => key_compare k1' k2'
      | c => c
      end
  end.

Fixpoint unique_keys (l : list key) : list key :=
  match l with
  | [] => []
  | k :: l' => k :: filter (fun k' => negb (key_eqb k' k)) (unique_keys l')
  end.

Fixpoint insert_key (k : key) (l : list key) : list key :=
  match l with
  | [] => [k]
  | h :: t =>
      match key_compare k h with
      | Gt => h :: insert_key k t
      | _ => k :: l
      end
  end.

Definition sort_keys (l : list key) : list key := fold_right insert_key [] l.

(** [rows.groupby(by)]: the rows with a missing key are dropped, the groups
    come in the order of their keys, the rows of a group in row order. *)
Definition present {R : Type} (by_ : R -> key) (rows : list R) : list R :=
  filter (fun r => forallb notna (by_ r)) rows.

Definition group_keys {R : Type} (by_ : R -> key) (rows : list R) : list key :=
  sort_keys (unique_keys (map by_ (present by_ rows))).

Definition members {R : Type} (by_ : R -> key) (k : key) (rows : list R) : list R :=
  filter (fun r => key_eqb (by_ r) k) (present by_ rows).

Definition groupby {R : Type} (by_ : R -> key) (rows : list R) : list (key * list R) :=
  map (fun k => (k, members by_ k rows)) (group_keys by_ rows).

(** ** The tables *)

(** A contribution record, once the amount is a number and the address
    group is known. *)
Module Row.
Record t : Type := mk {
    Contributor_Name : cell;
    Contributor_Type : cell;
    full_address : cell;
    Amount : float;
    group_id : cell
}.
End Row.

Module AddrStat.
Record t : Type := mk {
    group_id : cell;
    full_address : cell;
    contributors : Z;
    total_amount : float;
    tx_count : Z
}.
End AddrStat.

Module Node.
Record t : Type := mk {
    id : cell;
    label : cell;
    type : cell;
    contrib_type : cell;
    total_amount : float;
    tx_count : Z
}.
End Node.

Module Edge.
Record t : Type := mk {
    source : cell;
    target : cell;
    edge_type : cell;
    address : cell;
    tx_count : Z;
    total_amount : float
}.
End Edge.

(** A row of [df_shared], with its two identifiers. *)
Module Shared.
Record t : Type := mk {
    row : Row.t;
    contrib_id : cell;
    address_id : cell
}.
End Shared.

Record tables : Type := mk_tables {
  nodes : list Node.t;
  edges : list Edge.t;
  top_shared : list AddrStat.t
}.

(** ** The graph builder ([prep.py]) *)

Definition N_MIN_AT_ADDRESS : Z := 2.

Definition required : list string :=
  ["Contributor Name"; "Contributor Type"; "full_address"].

(** The text of an amount once the dollar sign and the commas are removed. *)
Definition clean_amount (c : cell) : string :=
  remove_char "," (remove_char "$" (astype_str c)).

Fixpoint zip_rows (names types addrs : list cell) (amounts : list float)
    (gids : list cell) : list Row.t :=
  match names, types, addrs, amounts, gids with
  | n :: names', t :: types', a :: addrs', m :: amounts', g :: gids' =>
      Row.mk n t a m g :: zip_rows names' types' addrs' amounts' gids'
  | _, _, _, _, _ => []
  end.

(** Lines 15 to 40: the amounts made numbers, the required columns checked,
    the defaults, the address groups.  The [Date] column is parsed with
    [errors="coerce"], which raises nothing, and is not read again. *)
Definition load (df : DataFrame) : outcome (list Row.t) :=
  raw <- getitem df "Amount" ;;
  amount <- astype_float (map clean_amount raw) ;;
  let cols := assign_column "Amount" (columns df) in
  let missing := filter (fun c => negb (mem_string c cols)) required in
  match missing with
  | _ :: _ => Raise (ValueError_missing missing)
  | [] =>
      let amount :=
        if negb (mem_string "Amount" cols) then repeat zero (nrows df) else amount in
      names <- getitem df "Contributor Name" ;;
      types <- getitem df "Contributor Type" ;;
      addrs <- getitem df "full_address" ;;
      gids <- (if negb (mem_string "group_id" cols)
               then Ok (map Int (factorize addrs))
               else getitem df "group_id") ;;
      Ok (zip_rows names types addrs amount gids)
  end.

Definition count {A : Type} (l : list A) : Z := Z.of_nat (List.length l).

(** Lines 43 to 48: the statistics of each address. *)
Definition by_group (r : Row.t) : key := [Row.group_id r; Row.full_address r].

Definition stat_of (g : key * list Row.t) : AddrStat.t :=
  AddrStat.mk (nth 0 (fst g) NaN) (nth 1 (fst g) NaN)
    (count (unique (map Row.Contributor_Name (snd g))))
    (sum_amounts (map Row.Amount (snd g)))
    (count (snd g)).

Definition addr_stats (rows : list Row.t) : list AddrStat.t :=
  map stat_of (groupby by_group rows).

(** Line 51: the groups with at least [n_min] distinct contributors, as a set. *)
Definition shared_addr_ids (n_min : Z) (stats : list AddrStat.t) : list cell :=
  unique (map AddrStat.group_id
            (filter (fun a => n_min <=? AddrStat.contributors a) stats)).

(** Line 56, [df_shared["group_id"].astype(str)].  The groups made on line 40
    are integers and print as such.  A [group_id] column of the file that
    holds integers and a missing cell is a column of floats in pandas, and
    its integers print with a fractional part, as in [7.0]; the integers
    meant are those a float holds exactly and prints in full, up to 2^53 in
    magnitude. *)
Definition floating (rows : list Row.t) : bool :=
  existsb (fun r => negb (notna (Row.group_id r))) rows.

Definition group_text (floating : bool) (c : cell) : string :=
  match c with
  | Int z => if floating then str_of_Z z ++ ".0" else str_of_Z z
  | _ => astype_str c
  end.

(** Lines 52 to 56: the rows of the shared addresses and their identifiers. *)
Definition with_ids (floating : bool) (r : Row.t) (code : Z) : Shared.t :=
  Shared.mk r (Str ("person:" ++ str_of_Z code))
              (Str ("addr:" ++ group_text floating (Row.group_id r))).

Definition df_shared (n_min : Z) (rows : list Row.t) : list Shared.t :=
  let keep := shared_addr_ids n_min (addr_stats rows) in
  let kept := filter (fun r => isin (Row.group_id r) keep) rows in
  map (fun rc : Row.t * Z => with_ids (floating rows) (fst rc) (snd rc))
      (combine kept (factorize (map Row.Contributor_Name kept))).

Definition name_of (s : Shared.t) : cell := Row.Contributor_Name (Shared.row s).
Definition type_of (s : Shared.t) : cell := Row.Contributor_Type (Shared.row s).
Definition addr_of (s : Shared.t) : cell := Row.full_address (Shared.row s).
Definition amount_of (s : Shared.t) : float := Row.Amount (Shared.row s).

(** Lines 59 to 65. *)
Definition by_contributor (s : Shared.t) : key :=
  [Shared.contrib_id s; name_of s; type_of s].

Definition contributor_node (g : key * list Shared.t) : Node.t :=
  Node.mk (nth 0 (fst g) NaN) (nth 1 (fst g) NaN) (Str "contributor") (nth 2 (fst g) NaN)
    (sum_amounts (map amount_of (snd g))) (count (snd g)).

Definition nodes_contrib (shared : list Shared.t) : list Node.t :=
  map contributor_node (groupby by_contributor shared).

(** Lines 68 to 74; the [contributors] column is not among those kept on
    line 79. *)
Definition by_address (s : Shared.t) : key := [Shared.address_id s; addr_of s].

Definition address_node (g : key * list Shared.t) : Node.t :=
  Node.mk (nth 0 (fst g) NaN) (nth 1 (fst g) NaN) (Str "address") NaN
    (sum_amounts (map amount_of (snd g))) (count (snd g)).

Definition nodes_addr (shared : list Shared.t) : list Node.t :=
  map address_node (groupby by_address shared).

(** Lines 83 to 89. *)
Definition by_edge (s : Shared.t) : key :=
  [Shared.contrib_id s; Shared.address_id s; addr_of s].

Definition edge_of (g : key * list Shared.t) : Edge.t :=
  Edge.mk (nth 0 (fst g) NaN) (nth 1 (fst g) NaN) (Str "at_address") (nth 2 (fst g) NaN)
    (count (snd g)) (sum_amounts (map amount_of (snd g))).

Definition build_edges (shared : list Shared.t) : list Edge.t :=
  map edge_of (groupby by_edge shared).

(** [sort_values(["contributors", "total_amount"], ascending=[False, False])]:
    a stable sort, a NaN total last among equal counts. *)
Definition precedes (a b : AddrStat.t) : bool :=
  (AddrStat.contributors b <? AddrStat.contributors a)
  || (AddrStat.contributors b =? AddrStat.contributors a)
     && negb (is_nan (AddrStat.total_amount a))
     && (is_nan (AddrStat.total_amount b)
         || (AddrStat.total_amount b <? AddrStat.total_amount a)%float).

Fixpoint insert_stat (a : AddrStat.t) (l : list AddrStat.t) : list AddrStat.t :=
  match l with
  | [] => [a]
  | b :: l' => if precedes b a then b :: insert_stat a l' else a :: l
  end.

(** Lines 92 and 93. *)
Definition build_top_shared (n_min : Z) (stats : list AddrStat.t) : list AddrStat.t :=
  fold_right insert_stat []
    (filter (fun a => isin (AddrStat.group_id a) (shared_addr_ids n_min stats)) stats).

(** The three tables of a build with threshold [n_min]. *)
Definition build (n_min : Z) (df : DataFrame) : outcome tables :=
  rows <- load df ;;
  let shared := df_shared n_min rows in
  Ok (mk_tables (nodes_contrib shared ++ nodes_addr shared)
                (build_edges shared)
                (build_top_shared n_min (addr_stats rows))).

(** *** The files written *)

Inductive csv : Type :=
| NodesCsv (l : list Node.t)
| EdgesCsv (l : list Edge.t)
| TopSharedCsv (l : list AddrStat.t).

(** The output directory: the files written so far, the latest first. *)
Definition directory : Type := list (string * csv).

(** Lines 95 to 98, reached only when nothing above has raised: the run of
    the script on a frame and a directory, with the exception it ends on. *)
Definition run (n_min : Z) (df : DataFrame) (dir : directory) : directory * option exn :=
  match build n_min df with
  | Raise e => (dir, Some e)
  | Ok t =>
      (("top_shared_addresses.csv", TopSharedCsv (top_shared t))
       :: ("edges.csv", EdgesCsv (edges t))
       :: ("nodes.csv", NodesCsv (nodes t)) :: dir, None)
  end.

(** ** The filter engine ([app.py]) *)

(** The values of the sidebar: the contributor types selected, the least
    number of contributors at an address, the range of the node totals. *)
Record params : Type := mk_params {
  sel_types : list cell;
  min_contribs : Z;
  sel_amt : float * float
}.

(** Line 86: per target, the number of distinct sources that are present. *)
Definition by_target (e : Edge.t) : key := [Edge.target e].

Definition contribs_of (g : key * list Edge.t) : cell * Z :=
  (nth 0 (fst g) NaN, count (unique (filter notna (map Edge.source (snd g))))).

Definition addr_contribs (edges : list Edge.t) : list (cell * Z) :=
  map contribs_of (groupby by_target edges).

(** Line 87. *)
Definition addr_keep (min_contribs : Z) (edges : list Edge.t) : list cell :=
  unique (map fst (filter (fun a : cell * Z => min_contribs <=? snd a)
                          (addr_contribs edges))).

Definition is_addr (n : Node.t) : bool := cell_eqb (Node.type n) (Str "address").
Definition is_person (n : Node.t) : bool := cell_eqb (Node.type n) (Str "contributor").

(** Lines 92 to 94. *)
Definition persons_ok (sel_types : list cell) (n : Node.t) : bool :=
  match sel_types with
  | [] => is_person n
  | _ :: _ => is_person n && isin (Node.contrib_type n) sel_types
  end.

(** [Series.between(lo, hi)], both ends included. *)
Definition between (lo hi x : float) : bool :=
  ((lo <=? x) && (x <=? hi))%float.

(** Lines 96 and 97. *)
Definition nodes_f (p : params) (nodes : list Node.t) (edges : list Edge.t) : list Node.t :=
  let keep := addr_keep (min_contribs p) edges in
  filter (fun n => between (fst (sel_amt p)) (snd (sel_amt p)) (Node.total_amount n))
    (filter (fun n => is_addr n && isin (Node.id n) keep || persons_ok (sel_types p) n)
            nodes).

(** Lines 99 and 100. *)
Definition edges_f (p : params) (nodes : list Node.t) (edges : list Edge.t) : list Edge.t :=
  let keep_ids := unique (map Node.id (nodes_f p nodes edges)) in
  filter (fun e => isin (Edge.source e) keep_ids && isin (Edge.target e) keep_ids) edges.

Definition filter_graph (p : params) (nodes : list Node.t) (edges : list Edge.t)
    : list Node.t * list Edge.t :=
  (nodes_f p nodes edges, edges_f p nodes edges).

(** ** The scenarios of the specification *)

(** Alice and Bob at 1 Main St, Carol at 2 Oak Ave. *)
Definition three_records : DataFrame :=
  [("Contributor Name", [Str "Alice"; Str "Bob"; Str "Carol"]);
   ("Contributor Type", [Str "Individual"; Str "Individual"; Str "PAC"]);
   ("full_address", [Str "1 Main St"; Str "1 Main St"; Str "2 Oak Ave"]);
   ("Amount", [Str "$100"; Str "$50"; Str "$200"])].

Definition alice : Node.t :=
  Node.mk (Str "person:0") (Str "Alice") (Str "contributor") (Str "Individual") 100 1.
Definition bob : Node.t :=
  Node.mk (Str "person:1") (Str "Bob") (Str "contributor") (Str "Individual") 50 1.
Definition main_st : Node.t :=
  Node.mk (Str "addr:0") (Str "1 Main St") (Str "address") NaN 150 2.

Definition alice_at_main_st : Edge.t :=
  Edge.mk (Str "person:0") (Str "addr:0") (Str "at_address") (Str "1 Main St") 1 100.
Definition bob_at_main_st : Edge.t :=
  Edge.mk (Str "person:1") (Str "addr:0") (Str "at_address") (Str "1 Main St") 1 50.

(** The labels and the contributor names a build shows, over its three tables. *)
Definition labels (t : tables) : list cell :=
  map Node.label (nodes t) ++ map Edge.address (edges t)
  ++ map AddrStat.full_address (top_shared t).

Definition main_st_stat : AddrStat.t :=
  AddrStat.mk (Int 0) (Str "1 Main St") 2 150 2.

(** The graph of the three records at threshold 2. *)
Definition scenario_graph : tables :=
  mk_tables [alice; bob; main_st] [alice_at_main_st; bob_at_main_st] [main_st_stat].

Definition three_rows : list Row.t :=
  [Row.mk (Str "Alice") (Str "Individual") (Str "1 Main St") 100 (Int 0);
   Row.mk (Str "Bob") (Str "Individual") (Str "1 Main St") 50 (Int 0);
   Row.mk (Str "Carol") (Str "PAC") (Str "2 Oak Ave") 200 (Int 1)].

(** The filter of the specification's scenario: individuals, two contributors
    at least, totals from 0 to 100. *)
Definition scenario_params : params :=
  mk_params [Str "Individual"] 2 (0%float, 100%float).

(** The three records without their [Amount] column. *)
Definition no_amount : DataFrame :=
  [("Contributor Name", [Str "Alice"; Str "Bob"; Str "Carol"]);
   ("Contributor Type", [Str "Individual"; Str "Individual"; Str "PAC"]);
   ("full_address", [Str "1 Main St"; Str "1 Main St"; Str "2 Oak Ave"])].

(** A range whose lower end is above its upper end. *)
Definition reversed_range : params :=
  mk_params [Str "Individual"] 2 (100%float, 0%float).




(** ** Failing builds *)

(** An amount cell whose text, without dollar signs and commas, is no number. *)
Definition bad_amount (c : cell) : bool :=
  match float_of_string (clean_amount c) with
  | None => true
  | Some _ => false
  end.

(** Two records whose first amount is the field [N/A] of the file. *)
Definition not_available : DataFrame :=
  [("Contributor Name", [Str "Alice"; Str "Bob"]);
   ("Contributor Type", [Str "Individual"; Str "Individual"]);
   ("full_address", [Str "1 Main St"; Str "1 Main St"]);
   ("Amount", map read_field ["N/A"; "$50"])].

(** Two frames with one amount that is no number, in the first row of the one
    and in the second row of the other. *)
Definition bad_first : DataFrame :=
  [("Contributor Name", [Str "Alice"; Str "Bob"]);
   ("Contributor Type", [Str "Individual"; Str "Individual"]);
   ("full_address", [Str "1 Main St"; Str "1 Main St"]);
   ("Amount", map read_field ["TBD"; "$50"])].

Definition bad_second : DataFrame :=
  [("Contributor Name", [Str "Alice"; Str "Bob"]);
   ("Contributor Type", [Str "Individual"; Str "Individual"]);
   ("full_address", [Str "1 Main St"; Str "1 Main St"]);
   ("Amount", map read_field ["$50"; "TBD"])].

(** What it takes for the exception of a build to identify the offending
    row: a way [row_of] to read a row number off the exception such that,
    whenever some amount of the frame is no number, the build raises and the
    amount of the row read off the exception is no number. *)
Definition identifies_row (row_of : exn -> nat) : Prop :=
  forall (n_min : Z) (df : DataFrame) (raw : list cell),
    getitem df "Amount" = Ok raw ->
    (exists c, In c raw /\ bad_amount c = true) ->
    exists e c, build n_min df = Raise e
                /\ nth_error raw (row_of e) = Some c /\ bad_amount c = true.

(** The required columns a frame lacks, as line 28 lists them. *)
Definition missing_columns (df : DataFrame) : list string :=
  filter (fun c => negb (mem_string c (columns df))) required.

(** The build of a frame reports each required column it lacks. *)
Definition missing_field_reported (n_min : Z) (df : DataFrame) : Prop :=
  forall c, In c required -> ~ In c (columns df) ->
    exists cols, build n_min df = Raise (ValueError_missing cols) /\ In c cols.

(** A frame without contributor types, with amounts that are numbers, and the
    same with an amount that is none. *)
Definition untyped : DataFrame :=
  [("Contributor Name", [Str "Alice"; Str "Bob"]);
   ("full_address", [Str "1 Main St"; Str "1 Main St"]);
   ("Amount", [Str "$100"; Str "$50"])].

Definition untyped_bad_amount : DataFrame :=
  [("Contributor Name", [Str "Alice"; Str "Bob"]);
   ("full_address", [Str "1 Main St"; Str "1 Main St"]);
   ("Amount", map read_field ["$100"; "$"])].

(** ** Node aggregates and edge aggregates *)

Definition sum_Z (l : list Z) : Z := fold_right Z.add 0 l.





(** Every contributor name goes with one contributor type. *)
Definition single_typed (shared : list Shared.t) : Prop :=
  forall s1 s2, In s1 shared -> In s2 shared ->
    name_of s1 = name_of s2 -> type_of s1 = type_of s2.




(** The group of every row is the code of its address, as line 40 sets it
    when the frame brings no [group_id] column. *)
Definition factorized (rows : list Row.t) : Prop :=
  exists addrs, forall r, In r rows ->
    In (Row.full_address r) addrs
    /\ Row.group_id r = Int (code_of (unique (filter notna addrs)) (Row.full_address r)).



From Stdlib Require Import Sorted.

(** ** The filter engine, restated *)

(** The number of distinct present sources among the edges that reach [t]. *)
Definition distinct_sources (t : cell) (edges : list Edge.t) : Z :=
  count (unique (filter notna
           (map Edge.source (filter (fun e => cell_eqb (Edge.target e) t) edges)))).

(** The parameters [p] with another threshold, another selection of types,
    another range. *)
Definition with_min_contribs (m : Z) (p : params) : params :=
  mk_params (sel_types p) m (sel_amt p).

Definition with_sel_types (sel : list cell) (p : params) : params :=
  mk_params sel (min_contribs p) (sel_amt p).

Definition with_sel_amt (r : float * float) (p : params) : params :=
  mk_params (sel_types p) (min_contribs p) r.

(** A contributor node whose total is not a number. *)
Definition no_total : Node.t :=
  Node.mk (Str "person:9") (Str "Dan") (Str "contributor") (Str "Individual") nan 1.

(** ** The sidebar and the summary ([app.py]) *)

Fixpoint insert_cell (c : cell) (l : list cell) : list cell :=
  match l with
  | [] => [c]
  | h :: t =>
      match cell_compare c h with
      | Gt => h :: insert_cell c t
      | _ => c :: l
      end
  end.

(** [sorted(l)] *)
Definition sorted_cells (l : list cell) : list cell := fold_right insert_cell [] l.

(** Line 69: the contributor types the node table shows, in order. *)
Definition types (nodes : list Node.t) : list cell :=
  sorted_cells (unique (filter notna (map Node.contrib_type nodes))).

(** [s.lower()] on ASCII text. *)
Definition lower_string (s : string) : string :=
  string_of_list_ascii (map lower (list_ascii_of_string s)).

Definition is_individual (t : cell) : bool :=
  String.eqb (lower_string (astype_str t)) "individual".

(** Line 70: the types selected at first. *)
Definition default_types (types : list cell) : list cell :=
  match filter is_individual types with
  | [] => types
  | chosen => chosen
  end.

(** The fold of [Series.min()] and [Series.max()]: [pick x acc] tells whether
    [x] replaces the extreme [acc] found so far. *)
Definition extreme (pick : float -> float -> bool) (l : list float) (acc : float)
    : float :=
  fold_left (fun acc x => if is_nan x then acc
                          else if is_nan acc then x
                          else if pick x acc then x else acc) l acc.

(** [Series.min()] and [Series.max()] on floats: NaN is skipped, and is the
    result when nothing else is there. *)
Definition amount_min (l : list float) : float :=
  extreme (fun x acc => (x <? acc)%float) l nan.

Definition amount_max (l : list float) : float :=
  extreme (fun x acc => (acc <? x)%float) l nan.

(** Lines 77 and 78. *)
Definition amt_min (nodes : list Node.t) : float :=
  amount_min (map Node.total_amount nodes).

Definition amt_max (nodes : list Node.t) : float :=
  amount_max (map Node.total_amount nodes).

(** Lines 109 and 110. *)
Definition n_addr (shown : list Node.t) : Z := count (filter is_addr shown).
Definition n_people (shown : list Node.t) : Z := count (filter is_person shown).

Module Top.
Record t : Type := mk {
  label : cell;
  contributors : Z;
  tx : Z
}.
End Top.

(** Lines 116 to 118: per target of a shown edge, its distinct present
    sources and its edges. *)
Definition target_stats (g : key * list Edge.t) : cell * Z * Z :=
  (nth 0 (fst g) NaN,
   count (unique (filter notna (map Edge.source (snd g)))),
   count (snd g)).

(** Lines 119 to 124: the left join with the labels of the shown address
    nodes; a target that is the id of none gets a missing label. *)
Definition with_label (addrs : list Node.t) (r : cell * Z * Z) : list Top.t :=
  match filter (fun n => cell_eqb (Node.id n) (fst (fst r))) addrs with
  | [] => [Top.mk NaN (snd (fst r)) (snd r)]
  | found => map (fun n => Top.mk (Node.label n) (snd (fst r)) (snd r)) found
  end.

(** Line 125: [sort_values(["contributors", "tx"], ascending=False)], a
    stable sort. *)
Definition above (a b : Top.t) : bool :=
  (Top.contributors b <? Top.contributors a)
  || (Top.contributors b =? Top.contributors a) && (Top.tx b <? Top.tx a).

Fixpoint insert_top (a : Top.t) (l : list Top.t) : list Top.t :=
  match l with
  | [] => [a]
  | b :: l' => if above b a then b :: insert_top a l' else a :: l
  end.

(** Lines 115 to 127: the table of the top shared addresses. *)
Definition top (shown : list Node.t) (shown_edges : list Edge.t) : list Top.t :=
  firstn 12
    (fold_right insert_top []
       (flat_map (with_label (filter is_addr shown))
          (map target_stats (groupby by_target shown_edges)))).

(** ** Making sure the tables are there ([ensure_artifacts]) *)

Inductive message : Type :=
| Toast (text : string)
| Error (e : exn)
| Warning (text : string).

Definition file_exists (name : string) (dir : directory) : bool :=
  existsb (fun f : string * csv => String.eqb (fst f) name) dir.

(** Lines 25 to 37, with [prep_exists] telling whether [prep.py] is there and
    [df] the frame it would read: the directory afterwards and the messages
    shown.  The error message stands for the standard error of the script. *)
Definition ensure_artifacts (prep_exists : bool) (df : DataFrame) (dir : directory)
    : directory * list message :=
  if negb (file_exists "nodes.csv" dir && file_exists "edges.csv" dir) then
    if prep_exists then
      let (dir', result) := run N_MIN_AT_ADDRESS df dir in
      (dir', Toast "Generated nodes/edges from prep.py"
             :: match result with
                | Some e => [Error e]
                | None => []
                end)
    else (dir, [Warning "prep.py not found; please upload nodes/edges manually."])
  else (dir, []).

(** [a] ranks no lower than [b] in the table of the top shared addresses. *)
Definition ranks_before (a b : Top.t) : Prop :=
  Top.contributors b < Top.contributors a
  \/ Top.contributors b = Top.contributors a /\ Top.tx b <= Top.tx a.

(** ** The graph builder, restated *)

(** The number of distinct contributor names, a missing one among them,
    over the rows of the group [g] at the address [a]. *)
Definition distinct_names (g a : cell) (rows : list Row.t) : Z :=
  count (unique (map Row.Contributor_Name
           (filter (fun r => cell_eqb (Row.group_id r) g
                             && cell_eqb (Row.full_address r) a) rows))).

(** A frame with the four columns and no row. *)
Definition empty_frame : DataFrame :=
  [("Contributor Name", []); ("Contributor Type", []); ("full_address", []);
   ("Amount", [])].

(** [x] has no fewer contributors than [y]. *)
Definition no_fewer (x y : AddrStat.t) : Prop :=
  AddrStat.contributors y <= AddrStat.contributors x.

(** The elements of [l] whose image by [f] is met for the first time. *)
Fixpoint first_by {A : Type} (f : A -> cell) (l : list A) : list A :=
  match l with
  | [] => []
  | a :: l' => a :: filter (fun x => negb (cell_eqb (f x) (f a))) (first_by f l')
  end.

(** ** Cells, sets and keys *)

Lemma cell_eqb_eq (a b : cell) : cell_eqb a b = true <-> a = b.
Proof.
  destruct a, b; simpl; split; intros H; try discriminate; try reflexivity.
  - apply String.eqb_eq in H. now subst.
  - inversion H. apply String.eqb_refl.
  - apply Z.eqb_eq in H. now subst.
  - inversion H. apply Z.eqb_refl.
Qed.

Lemma cell_eqb_refl (a : cell) : cell_eqb a a = true.
Proof. now apply cell_eqb_eq. Qed.

Lemma cell_eqb_neq (a b : cell) : cell_eqb a b = false <-> a <> b.
Proof.
  rewrite <- cell_eqb_eq. destruct (cell_eqb a b); split; congruence.
Qed.

Lemma isin_In (c : cell) (l : list cell) : isin c l = true <-> In c l.
Proof.
  unfold isin. rewrite existsb_exists. split.
  - intros [d [Hd He]]. apply cell_eqb_eq in He. now subst.
  - intros H. exists c. split; [assumption | apply cell_eqb_refl].
Qed.

Lemma unique_In (c : cell) (l : list cell) : In c (unique l) <-> In c l.
Proof.
  induction l as [| d l IH]; simpl; [tauto |].
  rewrite filter_In, IH. split.
  - intros [H | [H _]]; auto.
  - intros [H | H]; auto.
    destruct (cell_eqb c d) eqn:E.
    + apply cell_eqb_eq in E. auto.
    + right. now split.
Qed.

Lemma unique_NoDup (l : list cell) : NoDup (unique l).
Proof.
  induction l as [| d l IH]; simpl; constructor.
  - rewrite filter_In. intros [_ H]. now rewrite cell_eqb_refl in H.
  - now apply NoDup_filter.
Qed.

Lemma key_eqb_eq (k1 k2 : key) : key_eqb k1 k2 = true <-> k1 = k2.
Proof.
  revert k2. induction k1 as [| a k1 IH]; intros [| b k2]; simpl;
    try (split; [discriminate | congruence]); [tauto |].
  rewrite andb_true_iff, cell_eqb_eq, IH. split.
  - intros [-> ->]. reflexivity.
  - intros H. inversion H. auto.
Qed.

Lemma key_eqb_refl (k : key) : key_eqb k k = true.
Proof. now apply key_eqb_eq. Qed.

(** ** The filter engine never leaves an edge dangling *)

Lemma keep_ids_In (c : cell) (l : list Node.t) :
  isin c (unique (map Node.id l)) = true -> exists n, In n l /\ Node.id n = c.
Proof.
  rewrite isin_In, unique_In, in_map_iff. intros [n [H1 H2]]. now exists n.
Qed.

(** C2. Whatever the node table, the edge table and the filter parameters,
    every edge of the filtered edge table has its source and its target among
    the ids of the filtered node table. *)
Theorem referential_closure (p : params) (nodes : list Node.t) (edges : list Edge.t)
    (e : Edge.t) :
  In e (snd (filter_graph p nodes edges)) ->
  (exists n, In n (fst (filter_graph p nodes edges)) /\ Node.id n = Edge.source e)
  /\ (exists n, In n (fst (filter_graph p nodes edges)) /\ Node.id n = Edge.target e).
Proof.
  simpl. unfold edges_f. rewrite filter_In, andb_true_iff.
  intros [_ [Hs Ht]]. split; now apply keep_ids_In.
Qed.

Lemma referential_closure_witness :
  (exists n, In n (fst (filter_graph (mk_params [] 2 (0%float, 200%float))
                          [alice; bob; main_st] [alice_at_main_st; bob_at_main_st]))
             /\ Node.id n = Edge.source alice_at_main_st)
  /\ (exists n, In n (fst (filter_graph (mk_params [] 2 (0%float, 200%float))
                          [alice; bob; main_st] [alice_at_main_st; bob_at_main_st]))
             /\ Node.id n = Edge.target alice_at_main_st).
Proof.
  apply (@referential_closure (mk_params [] 2 (0%float, 200%float))
           [alice; bob; main_st] [alice_at_main_st; bob_at_main_st] alice_at_main_st).
  vm_compute. left. reflexivity.
Defined.

(** ** Raising the threshold of the builder *)

(** C3. For every set of records and every pair of thresholds t1 <= t2, each
    address group the builder retains at t2 is retained at t1, and the builder
    retains no more groups at t2 than at t1. *)
Theorem threshold_monotone (rows : list Row.t) (t1 t2 : Z) :
  t1 <= t2 ->
  incl (shared_addr_ids t2 (addr_stats rows)) (shared_addr_ids t1 (addr_stats rows))
  /\ (List.length (shared_addr_ids t2 (addr_stats rows))
      <= List.length (shared_addr_ids t1 (addr_stats rows)))%nat.
Proof.
  intros Hle.
  assert (Hincl : incl (shared_addr_ids t2 (addr_stats rows))
                       (shared_addr_ids t1 (addr_stats rows))).
  { intros c. unfold shared_addr_ids. rewrite !unique_In, !in_map_iff.
    intros [a [Ha Hin]]. exists a. split; [assumption |].
    apply filter_In in Hin. apply filter_In. destruct Hin as [Hin Hc].
    split; [assumption |]. apply Z.leb_le in Hc. apply Z.leb_le. lia. }
  split; [assumption |].
  apply NoDup_incl_length; [apply unique_NoDup | assumption].
Qed.

Lemma threshold_monotone_witness :
  incl (shared_addr_ids 2 (addr_stats three_rows)) (shared_addr_ids 1 (addr_stats three_rows))
  /\ (List.length (shared_addr_ids 2 (addr_stats three_rows))
      <= List.length (shared_addr_ids 1 (addr_stats three_rows)))%nat.
Proof. apply (@threshold_monotone three_rows 1 2). lia. Defined.

(** ** The scenario of three records *)

(** C1. From the three records and the threshold 2 the builder keeps the
    group of 1 Main St alone; the node table is Alice, Bob and the address
    1 Main St, the edge table has two edges of one transaction each, and
    neither Carol nor 2 Oak Ave shows in any of the three tables. *)
Theorem aggregation_scenario :
  load three_records = Ok three_rows
  /\ shared_addr_ids 2 (addr_stats three_rows) = [Int 0]
  /\ build 2 three_records = Ok scenario_graph
  /\ nodes scenario_graph = [alice; bob; main_st]
  /\ List.length (edges scenario_graph) = 2%nat
  /\ (forall e, In e (edges scenario_graph) -> Edge.tx_count e = 1)
  /\ ~ In (Str "Carol") (labels scenario_graph)
  /\ ~ In (Str "2 Oak Ave") (labels scenario_graph).
Proof.
  repeat split; try (vm_compute; reflexivity).
  - intros e [<- | [<- | []]]; reflexivity.
  - simpl. intros H. repeat (destruct H as [H | H]; [discriminate |]). exact H.
  - simpl. intros H. repeat (destruct H as [H | H]; [discriminate |]). exact H.
Qed.

(** ** The range of totals *)

Lemma SFleb_trans_ltb (a x b : spec_float) :
  SFleb a x = true -> SFleb x b = true -> SFltb b a = false.
Proof.
  unfold SFleb, SFltb.
  destruct a as [sa | sa | | sa ma ea], x as [sx | sx | | sx mx ex],
    b as [sb | sb | | sb mb eb]; simpl;
    try discriminate; try reflexivity;
    repeat match goal with s : bool |- _ => destruct s end; simpl;
    try discriminate; try reflexivity.
  all: rewrite ?Pos.compare_cont_spec; simpl.
  all: repeat match goal with
       | |- context [Z.compare ?u ?v] => destruct (Z.compare_spec u v); subst
       | |- context [Pos.compare ?u ?v] => destruct (Pos.compare_spec u v); subst
       end; simpl; try discriminate; try reflexivity; intros; try lia.
Qed.

Lemma between_ordered (lo hi x : float) :
  between lo hi x = true -> (hi <? lo)%float = false.
Proof.
  unfold between. rewrite andb_true_iff, !leb_spec, ltb_spec. intros [H1 H2].
  eapply SFleb_trans_ltb; eassumption.
Qed.

Lemma filter_none {A : Type} (f : A -> bool) (l : list A) :
  (forall x, In x l -> f x = false) -> filter f l = [].
Proof.
  induction l as [| a l IH]; simpl; intros H; [reflexivity |].
  rewrite (H a (or_introl eq_refl)). apply IH. intros x Hx. apply H. now right.
Qed.

(** C7, as the code has it. When the lower end of the range of totals is above
    its upper end, the filter engine raises nothing: it returns an empty node
    table and an empty edge table. *)
Theorem reversed_range_is_empty (p : params) (nodes : list Node.t) (edges : list Edge.t) :
  (snd (sel_amt p) <? fst (sel_amt p))%float = true ->
  filter_graph p nodes edges = ([], []).
Proof.
  intros Hrev.
  assert (Hn : nodes_f p nodes edges = []).
  { unfold nodes_f. apply filter_none. intros n _.
    destruct (between _ _ _) eqn:E; [| reflexivity].
    apply between_ordered in E. congruence. }
  unfold filter_graph, edges_f. rewrite Hn. simpl.
  f_equal. apply filter_none. intros e _. reflexivity.
Qed.

Lemma reversed_range_is_empty_witness :
  filter_graph reversed_range (nodes scenario_graph) (edges scenario_graph) = ([], []).
Proof.
  apply (@reversed_range_is_empty reversed_range (nodes scenario_graph) (edges scenario_graph)).
  reflexivity.
Defined.

(** C7, as stated, fails: on the graph of the scenario the range from 100
    down to 0 is reversed, and the filter engine returns a result, the empty
    one. *)
Lemma reversed_range_not_rejected :
  (snd (sel_amt reversed_range) <? fst (sel_amt reversed_range))%float = true
  /\ filter_graph reversed_range (nodes scenario_graph) (edges scenario_graph) = ([], []).
Proof. split; vm_compute; reflexivity. Qed.

(** ** A threshold no address meets *)


Lemma persons_ok_person (sel : list cell) (n : Node.t) :
  persons_ok sel n = true -> is_person n = true.
Proof.
  unfold persons_ok. destruct sel; [tauto |].
  rewrite andb_true_iff. tauto.
Qed.

Lemma person_not_addr (n : Node.t) : is_person n = true -> is_addr n = false.
Proof.
  unfold is_person, is_addr. rewrite cell_eqb_eq. intros ->. reflexivity.
Qed.




(** ** The filter of the scenario *)

(** C5, as stated, fails: the address node of 1 Main St carries the total of
    its two contributors, 150, which the range from 0 to 100 excludes. *)
Lemma address_node_out_of_range :
  ~ In main_st (fst (filter_graph scenario_params (nodes scenario_graph)
                       (edges scenario_graph))).
Proof.
  vm_compute. intros [H | [H | []]]; discriminate.
Qed.

(** C5, as the code has it. With individuals selected, a threshold of 2 and
    totals from 0 to 100, Alice (100) and Bob (50) are kept and the address
    node (150) is not, so no edge is left; the range applies to the nodes of
    both kinds.  With totals up to 150 the address node is kept whatever the
    selected types, which apply to contributor nodes alone: selecting the
    type PAC removes Alice and Bob and keeps the address. *)
Theorem filter_scenario :
  filter_graph scenario_params (nodes scenario_graph) (edges scenario_graph)
  = ([alice; bob], [])
  /\ filter_graph (mk_params [Str "Individual"] 2 (0%float, 150%float))
       (nodes scenario_graph) (edges scenario_graph)
     = ([alice; bob; main_st], [alice_at_main_st; bob_at_main_st])
  /\ filter_graph (mk_params [Str "PAC"] 2 (0%float, 150%float))
       (nodes scenario_graph) (edges scenario_graph)
     = ([main_st], []).
Proof. repeat split; vm_compute; reflexivity. Qed.

(** ** A frame without amounts *)

Lemma getitem_absent (df : DataFrame) (c : string) :
  mem_string c (columns df) = false -> getitem df c = Raise (KeyError c).
Proof.
  induction df as [| [name v] df IH]; simpl; [reflexivity |].
  rewrite orb_false_iff, String.eqb_sym. intros [-> H]. now apply IH.
Qed.

Lemma build_without_amount (n_min : Z) (df : DataFrame) :
  mem_string "Amount" (columns df) = false ->
  build n_min df = Raise (KeyError "Amount").
Proof.
  intros H. unfold build, load. now rewrite (getitem_absent _ _ H).
Qed.

(** C6 fails on the code. The three records without an [Amount] column do not
    build: the column is read on line 18, before the default of line 34 is
    reached, and the build ends on the key error, with no table written. *)
Theorem missing_amount_column_raises :
  build N_MIN_AT_ADDRESS no_amount = Raise (KeyError "Amount")
  /\ run N_MIN_AT_ADDRESS no_amount [] = ([], Some (KeyError "Amount")).
Proof. split; reflexivity. Qed.

(** ** Amounts that are no numbers *)

Lemma astype_float_first_bad (good : list cell) (c : cell) (rest : list cell) :
  (forall g, In g good -> bad_amount g = false) ->
  bad_amount c = true ->
  astype_float (map clean_amount (good ++ c :: rest)%list)
  = Raise (ValueError_float (clean_amount c)).
Proof.
  unfold bad_amount. intros Hgood Hc.
  induction good as [| g good IH]; simpl.
  - destruct (float_of_string (clean_amount c)); [discriminate | reflexivity].
  - pose proof (Hgood g (or_introl eq_refl)) as Hg.
    destruct (float_of_string (clean_amount g)); [| discriminate].
    rewrite IH; [reflexivity |]. intros g' Hg'. apply Hgood. now right.
Qed.

Lemma run_of_failed_build (n_min : Z) (df : DataFrame) (dir : directory) (e : exn) :
  build n_min df = Raise e -> run n_min df dir = (dir, Some e).
Proof. unfold run. now intros ->. Qed.

Lemma build_bad_amount (n_min : Z) (df : DataFrame) (raw : list cell) (e : exn) :
  getitem df "Amount" = Ok raw ->
  astype_float (map clean_amount raw) = Raise e ->
  build n_min df = Raise e.
Proof. unfold build, load. intros ->. cbn [bind]. now intros ->. Qed.

(** C4, as stated, fails, and twice.  Its own example is no failure:
    [pd.read_csv] reads the field [N/A] as a missing value, the normalisation
    makes the number NaN of it, and the build of [not_available] succeeds and
    writes its tables.  And when an amount is no number, no reading of the
    exception identifies the row: the frames [bad_first] and [bad_second]
    have the same such text in different rows, and their builds raise the
    same exception. *)
Lemma amount_claim_fails :
  (read_field "N/A" = NaN
   /\ getitem not_available "Amount" = Ok [NaN; Str "$50"]
   /\ astype_float (map clean_amount [NaN; Str "$50"]) = Ok [nan; 50%float]
   /\ exists t, build 2 not_available = Ok t
                /\ run 2 not_available []
                   = ([("top_shared_addresses.csv", TopSharedCsv (top_shared t));
                       ("edges.csv", EdgesCsv (edges t));
                       ("nodes.csv", NodesCsv (nodes t))], None))
  /\ ~ exists row_of, identifies_row row_of.
Proof.
  split.
  - split; [reflexivity |]. split; [reflexivity |]. split; [vm_compute; reflexivity |].
    destruct (build 2 not_available) as [t | e] eqn:B.
    + exists t. split; [reflexivity |]. unfold run. now rewrite B.
    + vm_compute in B. discriminate B.
  - intros [row_of H].
    destruct (H 2 bad_first _ eq_refl) as [e1 [c1 [B1 [N1 K1]]]].
    { exists (Str "TBD"). split; [now left | vm_compute; reflexivity]. }
    destruct (H 2 bad_second _ eq_refl) as [e2 [c2 [B2 [N2 K2]]]].
    { exists (Str "TBD"). split; [right; now left | vm_compute; reflexivity]. }
    vm_compute in B1. vm_compute in B2.
    inversion B1; subst e1. inversion B2; subst e2.
    destruct (row_of (ValueError_float "TBD")) as [| [| k]]; simpl in N1, N2.
    + inversion N2; subst c2. vm_compute in K2. discriminate K2.
    + inversion N1; subst c1. vm_compute in K1. discriminate K1.
    + destruct k; discriminate N1.
Qed.

Lemma bad_amount_is_text (s : string) :
  bad_amount (read_field s) = true -> read_field s = Str s.
Proof.
  unfold read_field. destruct (mem_string s na_values); [| reflexivity].
  vm_compute. discriminate.
Qed.

(** C4, as the code has it. The amount ["$1,234.50"] becomes 1234.5 and
    ["$0"] becomes 0.0.  The field [N/A] is read as a missing value and
    becomes the number NaN, with no failure.  When the field of an amount,
    as [pd.read_csv] reads it and without dollar signs and commas, is no
    number while the amounts of the rows before it are, the field is a text
    and the build fails on the [ValueError] of the conversion, which carries
    that text and no row number, and nothing is written. *)
Theorem amount_normalization (n_min : Z) (df : DataFrame) (dir : directory)
    (good : list cell) (s : string) (rest : list cell) :
  getitem df "Amount" = Ok (good ++ read_field s :: rest)%list ->
  (forall g, In g good -> bad_amount g = false) ->
  bad_amount (read_field s) = true ->
  float_of_string (clean_amount (read_field "$1,234.50")) = Some 1234.5%float
  /\ float_of_string (clean_amount (read_field "$0")) = Some 0%float
  /\ float_of_string (clean_amount (read_field "N/A")) = Some nan
  /\ read_field s = Str s
  /\ build n_min df = Raise (ValueError_float (clean_amount (Str s)))
  /\ run n_min df dir = (dir, Some (ValueError_float (clean_amount (Str s)))).
Proof.
  intros Hraw Hgood Hc.
  pose proof (bad_amount_is_text s Hc) as Hs. rewrite Hs in Hraw, Hc.
  assert (Hb : build n_min df = Raise (ValueError_float (clean_amount (Str s)))).
  { eapply build_bad_amount; [eassumption |]. now apply astype_float_first_bad. }
  split; [vm_compute; reflexivity |].
  split; [vm_compute; reflexivity |].
  split; [vm_compute; reflexivity |].
  split; [assumption |].
  split; [assumption | now apply run_of_failed_build].
Qed.

Lemma amount_normalization_witness :
  float_of_string (clean_amount (read_field "$1,234.50")) = Some 1234.5%float
  /\ float_of_string (clean_amount (read_field "$0")) = Some 0%float
  /\ float_of_string (clean_amount (read_field "N/A")) = Some nan
  /\ read_field "TBD" = Str "TBD"
  /\ build 2 bad_second = Raise (ValueError_float (clean_amount (Str "TBD")))
  /\ run 2 bad_second [] = ([], Some (ValueError_float (clean_amount (Str "TBD")))).
Proof.
  apply (@amount_normalization 2 bad_second [] [read_field "$50"] "TBD" []).
  - reflexivity.
  - intros g [<- | []]. vm_compute. reflexivity.
  - vm_compute. reflexivity.
Defined.

(** ** Required columns *)

Lemma mem_string_In (c : string) (l : list string) : mem_string c l = true <-> In c l.
Proof.
  unfold mem_string. rewrite existsb_exists. split.
  - intros [d [Hd He]]. apply String.eqb_eq in He. now subst.
  - intros H. exists c. split; [assumption | apply String.eqb_refl].
Qed.

Lemma getitem_present (df : DataFrame) (c : string) (v : list cell) :
  getitem df c = Ok v -> mem_string c (columns df) = true.
Proof.
  destruct (mem_string c (columns df)) eqn:E; [reflexivity |].
  rewrite (getitem_absent _ _ E). discriminate.
Qed.

Lemma missing_columns_In (df : DataFrame) (c : string) :
  In c (missing_columns df) <-> In c required /\ ~ In c (columns df).
Proof.
  unfold missing_columns. rewrite filter_In, negb_true_iff. split.
  - intros [H1 H2]. split; [assumption |].
    intros H3. apply mem_string_In in H3. congruence.
  - intros [H1 H2]. split; [assumption |].
    destruct (mem_string c (columns df)) eqn:E; [| reflexivity].
    destruct H2. now apply mem_string_In.
Qed.

Lemma build_missing_columns (n_min : Z) (df : DataFrame) (raw : list cell)
    (amounts : list float) :
  getitem df "Amount" = Ok raw ->
  astype_float (map clean_amount raw) = Ok amounts ->
  missing_columns df <> [] ->
  build n_min df = Raise (ValueError_missing (missing_columns df)).
Proof.
  intros Hraw Hamt Hmiss. unfold build, load. rewrite Hraw. cbn [bind].
  rewrite Hamt. cbn [bind].
  unfold assign_column. rewrite (getitem_present _ _ Hraw).
  fold (missing_columns df). destruct (missing_columns df); [congruence | reflexivity].
Qed.

(** C8, as stated, fails: the frame [untyped_bad_amount] lacks the column of
    the contributor types and has the amount ["$"], of which nothing is left
    without the dollar sign; its build ends on that amount, since the amounts
    are normalised before the columns are checked, and reports no column. *)
Lemma bad_amount_reported_first :
  getitem untyped_bad_amount "Amount" = Ok [Str "$100"; Str "$"]
  /\ build 2 untyped_bad_amount = Raise (ValueError_float EmptyString)
  /\ ~ missing_field_reported 2 untyped_bad_amount.
Proof.
  split; [reflexivity |]. split; [vm_compute; reflexivity |].
  intros H. destruct (H "Contributor Type") as [cols [Hb _]].
  - right. now left.
  - simpl. intros [E | [E | [E | []]]]; discriminate.
  - vm_compute in Hb. discriminate.
Qed.

(** C8, as the code has it. For a frame that has an [Amount] column and lacks
    a required column: when every amount is a number, the build fails on the
    [ValueError] that lists the required columns the frame lacks, all of them
    and no other; when an amount is no number, the build fails on the error
    of the conversion instead.  Either way no table is written. *)
Theorem missing_required_column (n_min : Z) (df : DataFrame) (dir : directory)
    (raw : list cell) (c : string) :
  getitem df "Amount" = Ok raw ->
  In c required -> ~ In c (columns df) ->
  (forall amounts, astype_float (map clean_amount raw) = Ok amounts ->
     build n_min df = Raise (ValueError_missing (missing_columns df))
     /\ In c (missing_columns df)
     /\ (forall c', In c' (missing_columns df) <-> In c' required /\ ~ In c' (columns df))
     /\ run n_min df dir = (dir, Some (ValueError_missing (missing_columns df))))
  /\ (forall e, astype_float (map clean_amount raw) = Raise e ->
        build n_min df = Raise e /\ run n_min df dir = (dir, Some e)).
Proof.
  intros Hraw Hreq Habs.
  assert (Hin : In c (missing_columns df)) by now apply missing_columns_In.
  split.
  - intros amounts Hamt.
    assert (Hb : build n_min df = Raise (ValueError_missing (missing_columns df))).
    { eapply build_missing_columns; try eassumption.
      intros E. rewrite E in Hin. contradiction. }
    split; [assumption |]. split; [assumption |].
    split; [intros c'; apply missing_columns_In | now apply run_of_failed_build].
  - intros e He.
    assert (Hb : build n_min df = Raise e) by (eapply build_bad_amount; eassumption).
    split; [assumption | now apply run_of_failed_build].
Qed.

Lemma missing_required_column_witness :
  (forall amounts,
     astype_float (map clean_amount [Str "$100"; Str "$50"]) = Ok amounts ->
     build 2 untyped = Raise (ValueError_missing (missing_columns untyped))
     /\ In "Contributor Type" (missing_columns untyped)
     /\ (forall c', In c' (missing_columns untyped)
                    <-> In c' required /\ ~ In c' (columns untyped))
     /\ run 2 untyped [] = ([], Some (ValueError_missing (missing_columns untyped))))
  /\ (forall e, astype_float (map clean_amount [Str "$100"; Str "$50"]) = Raise e ->
        build 2 untyped = Raise e /\ run 2 untyped [] = ([], Some e)).
Proof.
  apply (@missing_required_column 2 untyped [] [Str "$100"; Str "$50"] "Contributor Type").
  - reflexivity.
  - simpl. right. now left.
  - simpl. intros [E | [E | [E | []]]]; discriminate.
Defined.

(** ** Grouping *)

Lemma insert_key_perm (k : key) (l : list key) : Permutation (k :: l) (insert_key k l).
Proof.
  induction l as [| h t IH]; simpl; [reflexivity |].
  destruct (key_compare k h); try reflexivity.
  rewrite perm_swap. now apply perm_skip.
Qed.

Lemma sort_keys_perm (l : list key) : Permutation l (sort_keys l).
Proof.
  induction l as [| k l IH]; simpl; [reflexivity |].
  rewrite <- insert_key_perm. now apply perm_skip.
Qed.

Lemma unique_keys_In (k : key) (l : list key) : In k (unique_keys l) <-> In k l.
Proof.
  induction l as [| d l IH]; simpl; [tauto |].
  rewrite filter_In, IH. split.
  - intros [H | [H _]]; auto.
  - intros [H | H]; auto.
    destruct (key_eqb k d) eqn:E.
    + apply key_eqb_eq in E. auto.
    + right. now split.
Qed.

Lemma unique_keys_NoDup (l : list key) : NoDup (unique_keys l).
Proof.
  induction l as [| d l IH]; simpl; constructor.
  - rewrite filter_In. intros [_ H]. now rewrite key_eqb_refl in H.
  - now apply NoDup_filter.
Qed.

Section Groups.
Variable R : Type.
Variable by_ : R -> key.

Lemma group_keys_In (k : key) (rows : list R) :
  In k (group_keys by_ rows) <-> exists r, In r rows /\ forallb notna k = true /\ by_ r = k.
Proof.
  unfold group_keys. rewrite <- (Permutation_in' eq_refl (sort_keys_perm _)).
  - rewrite unique_keys_In, in_map_iff. unfold present. split.
    + intros [r [Hk Hr]]. apply filter_In in Hr. exists r. subst k. tauto.
    + intros [r [Hr [Hn Hk]]]. exists r. split; [assumption |].
      apply filter_In. subst k. tauto.
Qed.

Lemma group_keys_NoDup (rows : list R) : NoDup (group_keys by_ rows).
Proof.
  unfold group_keys. eapply Permutation_NoDup; [apply sort_keys_perm |].
  apply unique_keys_NoDup.
Qed.

Lemma groupby_In (g : key * list R) (rows : list R) :
  In g (groupby by_ rows) ->
  snd g = members by_ (fst g) rows
  /\ exists r, In r rows /\ forallb notna (fst g) = true /\ by_ r = fst g.
Proof.
  unfold groupby. rewrite in_map_iff. intros [k [<- Hk]]. simpl.
  split; [reflexivity | now apply group_keys_In].
Qed.

Lemma members_nil (ks : list key) :
  List.concat (map (fun k => filter (fun r : R => key_eqb (by_ r) k) []) ks) = [].
Proof. induction ks as [| k ks IH]; simpl; [reflexivity | exact IH]. Qed.

Lemma members_other (r : R) (l : list R) (ks : list key) :
  ~ In (by_ r) ks ->
  List.concat (map (fun k => filter (fun r => key_eqb (by_ r) k) (r :: l)) ks)
  = List.concat (map (fun k => filter (fun r => key_eqb (by_ r) k) l) ks).
Proof.
  induction ks as [| k ks IH]; [reflexivity |].
  intros H. cbn [map List.concat].
  rewrite IH by (intros H'; apply H; now right). f_equal.
  cbn [filter]. destruct (key_eqb (by_ r) k) eqn:E; [| reflexivity].
  apply key_eqb_eq in E. destruct H. now left.
Qed.

Lemma members_own (r : R) (l : list R) (ks : list key) :
  NoDup ks -> In (by_ r) ks ->
  Permutation
    (List.concat (map (fun k => filter (fun r => key_eqb (by_ r) k) (r :: l)) ks))
    (r :: List.concat (map (fun k => filter (fun r => key_eqb (by_ r) k) l) ks)).
Proof.
  induction ks as [| k ks IH]; [contradiction |].
  intros Hnd Hin. inversion Hnd as [| k' ks' Hnotin Hnd']; subst.
  cbn [map List.concat].
  destruct (key_eqb (by_ r) k) eqn:E.
  - rewrite members_other by (apply key_eqb_eq in E; now subst k).
    cbn [filter]. rewrite E. reflexivity.
  - destruct Hin as [Hin | Hin]; [subst k; now rewrite key_eqb_refl in E |].
    rewrite (IH Hnd' Hin). cbn [filter]. rewrite E. symmetry. apply Permutation_middle.
Qed.

Lemma members_partition (P : key -> bool) (l : list R) (ks : list key) :
  NoDup ks ->
  (forall r, In r l -> In (by_ r) ks) ->
  Permutation (filter (fun r => P (by_ r)) l)
    (List.concat (map (fun k => filter (fun r => key_eqb (by_ r) k) l) (filter P ks))).
Proof.
  intros Hnd. induction l as [| r l IH]; intros Hcov.
  - rewrite members_nil. reflexivity.
  - assert (IH' := IH (fun r' H => Hcov r' (or_intror H))).
    pose proof (Hcov r (or_introl eq_refl)) as Hr.
    destruct (P (by_ r)) eqn:EP.
    + rewrite members_own.
      * cbn [filter]. rewrite EP. now apply perm_skip.
      * now apply NoDup_filter.
      * apply filter_In. now split.
    + rewrite members_other.
      * cbn [filter]. now rewrite EP.
      * rewrite filter_In. intros [_ H]. congruence.
Qed.

Lemma groupby_partition (P : key -> bool) (rows : list R) :
  Permutation (filter (fun r => P (by_ r)) (present by_ rows))
    (List.concat (map snd (filter (fun g => P (fst g)) (groupby by_ rows)))).
Proof.
  rewrite (@members_partition P (present by_ rows) (group_keys by_ rows)).
  - unfold groupby, members.
    induction (group_keys by_ rows) as [| k ks IH]; simpl; [reflexivity |].
    destruct (P k); simpl; [now apply Permutation_app_head | exact IH].
  - apply group_keys_NoDup.
  - intros r Hr. apply group_keys_In. unfold present in Hr.
    apply filter_In in Hr. exists r. tauto.
Qed.

End Groups.


(** ** Identifiers *)

Lemma str_of_Z_inj (a b : Z) : str_of_Z a = str_of_Z b -> a = b.
Proof.
  unfold str_of_Z. intros H. apply DecimalZ.to_int_inj.
  assert (Hn : forall z, NilZero.int_of_string (NilZero.string_of_int (Z.to_int z))
                         = Some (Z.to_int z)).
  { intros z. apply NilZero.isi; destruct z; simpl; try discriminate;
      intros E; inversion E as [E']; now apply DecimalPos.Unsigned.to_uint_nonnil in E'. }
  pose proof (Hn a) as Ha. rewrite H, Hn in Ha. now inversion Ha.
Qed.

Lemma index_of_In (c : cell) (l : list cell) :
  In c l -> exists i, index_of c l = Some i.
Proof.
  induction l as [| d l IH]; simpl; [contradiction |].
  intros H. destruct (cell_eqb d c) eqn:E; [now exists 0%nat |].
  destruct H as [H | H]; [subst; now rewrite cell_eqb_refl in E |].
  destruct (IH H) as [i ->]. now exists (S i).
Qed.

Lemma index_of_inj (c1 c2 : cell) (l : list cell) (i : nat) :
  index_of c1 l = Some i -> index_of c2 l = Some i -> c1 = c2.
Proof.
  revert i. induction l as [| d l IH]; simpl; intros i; [discriminate |].
  destruct (cell_eqb d c1) eqn:E1, (cell_eqb d c2) eqn:E2.
  - apply cell_eqb_eq in E1, E2. congruence.
  - intros H1. inversion H1. destruct (index_of c2 l); discriminate.
  - destruct (index_of c1 l); [| discriminate]. intros H1 H2. inversion H2. now subst.
  - destruct (index_of c1 l) as [i1 |] eqn:I1; [| discriminate].
    destruct (index_of c2 l) as [i2 |] eqn:I2; [| discriminate].
    intros H1 H2. inversion H1. inversion H2. subst. apply (IH i1); congruence.
Qed.

Lemma index_of_None (c : cell) (l : list cell) : ~ In c l -> index_of c l = None.
Proof.
  induction l as [| d l IH]; simpl; [reflexivity |].
  intros H. destruct (cell_eqb d c) eqn:E.
  - apply cell_eqb_eq in E. subst. destruct H. now left.
  - rewrite IH; [reflexivity | tauto].
Qed.

Lemma present_values_In (c : cell) (l : list cell) :
  In c (unique (filter notna l)) <-> In c l /\ c <> NaN.
Proof.
  rewrite unique_In, filter_In. destruct c; simpl; intuition congruence.
Qed.

(** The code of a present value is not negative and tells the value; the
    code of a missing value is -1. *)
Lemma code_of_present (c : cell) (l : list cell) :
  In c l -> c <> NaN -> 0 <= code_of (unique (filter notna l)) c.
Proof.
  intros H1 H2. unfold code_of.
  destruct (@index_of_In c (unique (filter notna l))) as [i ->]; [| lia].
  now apply present_values_In.
Qed.

Lemma code_of_missing (l : list cell) : code_of (unique (filter notna l)) NaN = -1.
Proof.
  unfold code_of. rewrite index_of_None; [reflexivity |].
  rewrite present_values_In. tauto.
Qed.

Lemma code_of_inj (c1 c2 : cell) (l : list cell) :
  In c1 l -> In c2 l ->
  code_of (unique (filter notna l)) c1 = code_of (unique (filter notna l)) c2 ->
  c1 = c2.
Proof.
  intros H1 H2.
  assert (Hcase : forall c, In c l ->
            c = NaN /\ code_of (unique (filter notna l)) c = -1
            \/ exists i, index_of c (unique (filter notna l)) = Some i
                         /\ code_of (unique (filter notna l)) c = Z.of_nat i).
  { intros c Hc. destruct (cell_eqb c NaN) eqn:E.
    - apply cell_eqb_eq in E. subst c. left.
      split; [reflexivity | apply code_of_missing].
    - apply cell_eqb_neq in E. right. unfold code_of.
      destruct (@index_of_In c (unique (filter notna l))) as [i Hi].
      { apply present_values_In. now split. }
      exists i. now rewrite Hi. }
  destruct (Hcase c1 H1) as [[-> E1] | [i1 [I1 E1]]],
           (Hcase c2 H2) as [[-> E2] | [i2 [I2 E2]]];
    intros E; try rewrite E1 in E; try rewrite E2 in E; try reflexivity; try lia.
  apply Nat2Z.inj in E. subst i2. eapply index_of_inj; eassumption.
Qed.

Lemma combine_map {A B : Type} (f : A -> B) (l : list A) :
  combine l (map f l) = map (fun x => (x, f x)) l.
Proof. induction l as [| a l IH]; simpl; [reflexivity | now rewrite IH]. Qed.

(** The rows of [df_shared]: rows of a retained group, with the identifiers
    that the codes of their name and of their group make. *)
Lemma df_shared_In (n_min : Z) (rows : list Row.t) (s : Shared.t) :
  In s (df_shared n_min rows) ->
  exists names,
    (forall s', In s' (df_shared n_min rows) ->
       In (name_of s') names
       /\ Shared.contrib_id s'
          = Str ("person:" ++ str_of_Z (code_of (unique (filter notna names)) (name_of s')))
       /\ Shared.address_id s'
          = Str ("addr:" ++ group_text (floating rows) (Row.group_id (Shared.row s'))))
    /\ In (Shared.row s) rows
    /\ In (Row.group_id (Shared.row s)) (shared_addr_ids n_min (addr_stats rows)).
Proof.
  unfold df_shared. unfold factorize. rewrite map_map, combine_map, map_map.
  cbn [fst snd].
  set (kept := filter _ rows). intros Hs.
  exists (map Row.Contributor_Name kept). split.
  - intros s' Hs'. apply in_map_iff in Hs'. destruct Hs' as [r [<- Hr]].
    unfold name_of. simpl. split; [now apply in_map | split; reflexivity].
  - apply in_map_iff in Hs. destruct Hs as [r [<- Hr]]. simpl.
    apply filter_In in Hr. rewrite isin_In in Hr. exact Hr.
Qed.

Lemma contrib_id_name (n_min : Z) (rows : list Row.t) (s1 s2 : Shared.t) :
  In s1 (df_shared n_min rows) -> In s2 (df_shared n_min rows) ->
  (Shared.contrib_id s1 = Shared.contrib_id s2 <-> name_of s1 = name_of s2).
Proof.
  intros H1 H2. destruct (df_shared_In _ _ _ H1) as [names [Hall _]].
  destruct (Hall s1 H1) as [N1 [E1 _]]. destruct (Hall s2 H2) as [N2 [E2 _]].
  rewrite E1, E2. split.
  - intros H. inversion H as [H']. apply str_of_Z_inj in H'.
    now apply (code_of_inj _ _ _ N1 N2).
  - now intros ->.
Qed.

Lemma zip_rows_factorized (f : cell -> Z) (addrs names types : list cell)
    (amounts : list float) (r : Row.t) :
  In r (zip_rows names types addrs amounts (map (fun c => Int (f c)) addrs)) ->
  In (Row.full_address r) addrs /\ Row.group_id r = Int (f (Row.full_address r)).
Proof.
  revert names types amounts.
  induction addrs as [| a addrs IH]; intros [| n names] [| t types] [| m amounts];
    simpl; try contradiction.
  intros [<- | H]; simpl; [tauto |].
  destruct (IH _ _ _ H). tauto.
Qed.

Lemma load_factorized (df : DataFrame) (rows : list Row.t) :
  load df = Ok rows -> mem_string "group_id" (columns df) = false -> factorized rows.
Proof.
  unfold load. intros H Hg.
  destruct (getitem df "Amount") as [raw |] eqn:Hraw; [| discriminate]. cbn [bind] in H.
  destruct (astype_float _) as [amount |]; [| discriminate]. cbn [bind] in H.
  unfold assign_column in H. rewrite (getitem_present _ _ Hraw) in H.
  destruct (filter _ required); [| discriminate].
  destruct (getitem df "Contributor Name") as [names |]; [| discriminate].
  cbn [bind] in H.
  destruct (getitem df "Contributor Type") as [types |]; [| discriminate].
  cbn [bind] in H.
  destruct (getitem df "full_address") as [addrs |]; [| discriminate].
  cbn [bind] in H.
  rewrite Hg in H. cbn [bind negb] in H. inversion H; subst rows. clear H.
  exists addrs. intros r Hr. unfold factorize in Hr. rewrite map_map in Hr.
  now apply zip_rows_factorized in Hr.
Qed.

(** A retained group has a row with a present address. *)
Lemma shared_addr_ids_In (n_min : Z) (rows : list Row.t) (g : cell) :
  In g (shared_addr_ids n_min (addr_stats rows)) ->
  exists r, In r rows /\ Row.group_id r = g /\ Row.full_address r <> NaN.
Proof.
  unfold shared_addr_ids, addr_stats.
  rewrite unique_In, in_map_iff. intros [a [<- Ha]].
  apply filter_In in Ha. destruct Ha as [Ha _].
  apply in_map_iff in Ha. destruct Ha as [gr [<- Hgr]].
  apply groupby_In in Hgr. destruct Hgr as [_ [r [Hr [Hn Hk]]]].
  exists r. rewrite <- Hk in Hn. simpl. rewrite <- Hk. simpl in Hn |- *.
  split; [assumption |]. split; [reflexivity |].
  destruct (Row.full_address r); try discriminate.
  now rewrite andb_false_r in Hn.
Qed.

(** When the groups are the codes of the addresses, the retained rows have
    an address, and the address identifier tells the address. *)
Lemma shared_address_present (n_min : Z) (rows : list Row.t) (s : Shared.t) :
  factorized rows -> In s (df_shared n_min rows) -> addr_of s <> NaN.
Proof.
  intros [addrs Hf] Hs. destruct (df_shared_In _ _ _ Hs) as [_ [_ [Hr Hg]]].
  apply shared_addr_ids_In in Hg. destruct Hg as [r' [Hr' [Hg' Hn']]].
  destruct (Hf _ Hr) as [A1 G1]. destruct (Hf _ Hr') as [A2 G2].
  rewrite G1, G2 in Hg'. inversion Hg' as [Hc].
  apply (code_of_inj _ _ _ A2 A1) in Hc. unfold addr_of. now rewrite <- Hc.
Qed.

(** The groups made on line 40 are integers, none is missing. *)
Lemma factorized_not_floating (rows : list Row.t) :
  factorized rows -> floating rows = false.
Proof.
  intros [addrs Hf]. unfold floating.
  destruct (existsb _ rows) eqn:E; [| reflexivity].
  apply existsb_exists in E. destruct E as [r [Hr E]].
  destruct (Hf r Hr) as [_ G]. rewrite G in E. discriminate E.
Qed.

Lemma address_id_address (n_min : Z) (rows : list Row.t) (s1 s2 : Shared.t) :
  factorized rows ->
  In s1 (df_shared n_min rows) -> In s2 (df_shared n_min rows) ->
  (Shared.address_id s1 = Shared.address_id s2 <-> addr_of s1 = addr_of s2).
Proof.
  intros [addrs Hf] H1 H2.
  destruct (df_shared_In _ _ _ H1) as [names [Hall [R1 _]]].
  destruct (df_shared_In _ _ _ H2) as [_ [_ [R2 _]]].
  destruct (Hall s1 H1) as [_ [_ E1]]. destruct (Hall s2 H2) as [_ [_ E2]].
  destruct (Hf _ R1) as [A1 G1]. destruct (Hf _ R2) as [A2 G2].
  rewrite E1, E2, G1, G2, (factorized_not_floating (ex_intro _ addrs Hf)).
  unfold addr_of. cbn [group_text]. split.
  - intros H. inversion H as [H']. apply str_of_Z_inj in H'.
    now apply (code_of_inj _ _ _ A1 A2).
  - now intros ->.
Qed.

(** ** Node aggregates against edge aggregates *)

Lemma filter_map_comm {A B : Type} (f : B -> bool) (g : A -> B) (l : list A) :
  filter f (map g l) = map g (filter (fun x => f (g x)) l).
Proof.
  induction l as [| a l IH]; simpl; [reflexivity |].
  destruct (f (g a)); simpl; now rewrite IH.
Qed.

Lemma filter_filter {A : Type} (f g : A -> bool) (l : list A) :
  filter f (filter g l) = filter (fun x => g x && f x) l.
Proof.
  induction l as [| a l IH]; simpl; [reflexivity |].
  destruct (g a); simpl; [destruct (f a) |]; now rewrite IH.
Qed.

Lemma filter_all {A : Type} (f : A -> bool) (l : list A) :
  (forall x, In x l -> f x = true) -> filter f l = l.
Proof.
  induction l as [| a l IH]; simpl; intros H; [reflexivity |].
  rewrite (H a (or_introl eq_refl)). f_equal. apply IH. intros x Hx. apply H. now right.
Qed.

Lemma count_app {A : Type} (l1 l2 : list A) : count (l1 ++ l2) = count l1 + count l2.
Proof. unfold count. rewrite length_app. lia. Qed.

Lemma count_concat {A B : Type} (f : B -> list A) (l : list B) :
  count (List.concat (map f l)) = sum_Z (map (fun x => count (f x)) l).
Proof.
  induction l as [| b l IH]; simpl; [reflexivity |].
  now rewrite count_app, IH.
Qed.

Section Retained.
Variable n_min : Z.
Variable rows : list Row.t.
Hypothesis groups_of_addresses : factorized rows.

Local Abbreviation shared := (df_shared n_min rows).

Lemma contrib_id_present (s : Shared.t) : In s shared -> Shared.contrib_id s <> NaN.
Proof.
  intros H. destruct (df_shared_In _ _ _ H) as [names [Hall _]].
  destruct (Hall s H) as [_ [E _]]. rewrite E. discriminate.
Qed.

Lemma address_id_present (s : Shared.t) : In s shared -> Shared.address_id s <> NaN.
Proof.
  intros H. destruct (df_shared_In _ _ _ H) as [names [Hall _]].
  destruct (Hall s H) as [_ [_ E]]. rewrite E. discriminate.
Qed.

Lemma notna_true (c : cell) : c <> NaN -> notna c = true.
Proof. destruct c; [congruence | reflexivity | reflexivity]. Qed.

(** No retained row is dropped when the edges are grouped. *)
Lemma present_by_edge : present by_edge shared = shared.
Proof.
  apply filter_all. intros s Hs. unfold by_edge. cbn [forallb].
  rewrite (@notna_true _ (@contrib_id_present s Hs)),
          (@notna_true _ (@address_id_present s Hs)),
          (@notna_true _ (@shared_address_present n_min rows s groups_of_addresses Hs)).
  reflexivity.
Qed.










End Retained.




(** ** What the filter engine keeps *)

Lemma groupby_In_iff {R : Type} (by_ : R -> key) (rows : list R) (g : key * list R) :
  In g (groupby by_ rows)
  <-> snd g = members by_ (fst g) rows
      /\ exists r, In r rows /\ forallb notna (fst g) = true /\ by_ r = fst g.
Proof.
  split; [apply groupby_In |].
  intros [Hm Hk]. apply group_keys_In in Hk.
  unfold groupby. apply in_map_iff. exists (fst g). split; [| assumption].
  rewrite <- Hm. now destruct g.
Qed.

Lemma members_by_target (t : cell) (edges : list Edge.t) :
  t <> NaN ->
  members by_target [t] edges = filter (fun e => cell_eqb (Edge.target e) t) edges.
Proof.
  intros Ht. unfold members, present. rewrite filter_filter.
  apply filter_ext. intros e. unfold by_target. cbn [forallb key_eqb].
  rewrite !andb_true_r.
  destruct (cell_eqb (Edge.target e) t) eqn:E; [| apply andb_false_r].
  apply cell_eqb_eq in E. rewrite E. now rewrite (notna_true Ht).
Qed.

Lemma addr_contribs_In (a : cell * Z) (edges : list Edge.t) :
  In a (addr_contribs edges)
  <-> fst a <> NaN /\ (exists e, In e edges /\ Edge.target e = fst a)
      /\ snd a = distinct_sources (fst a) edges.
Proof.
  unfold addr_contribs. rewrite in_map_iff. split.
  - intros [g [<- Hg]]. apply groupby_In in Hg.
    destruct Hg as [Hm [e [He [Hn Hk]]]].
    destruct g as [k ms]. cbn [fst snd] in *. subst k ms.
    unfold contribs_of. cbn [fst snd].
    change (by_target e) with [Edge.target e] in *. cbn [nth forallb] in *.
    assert (Ht : Edge.target e <> NaN).
    { intros E. rewrite E in Hn. discriminate. }
    split; [assumption |]. split; [now exists e |].
    unfold distinct_sources. now rewrite (members_by_target edges Ht).
  - intros [Ht [[e [He Hk]] Hs]].
    exists ([fst a], members by_target [fst a] edges). split.
    + unfold contribs_of. cbn [fst snd nth]. rewrite (members_by_target edges Ht).
      fold (distinct_sources (fst a) edges). rewrite <- Hs. now destruct a.
    + apply groupby_In_iff. cbn [fst snd]. split; [reflexivity |].
      exists e. unfold by_target. rewrite Hk. cbn [forallb].
      rewrite (notna_true Ht). auto.
Qed.

Lemma addr_keep_In_iff (m : Z) (edges : list Edge.t) (t : cell) :
  In t (addr_keep m edges)
  <-> t <> NaN /\ (exists e, In e edges /\ Edge.target e = t)
      /\ m <= distinct_sources t edges.
Proof.
  unfold addr_keep. rewrite unique_In, in_map_iff. split.
  - intros [a [<- Ha]]. apply filter_In in Ha. destruct Ha as [Ha Hm].
    apply addr_contribs_In in Ha. destruct Ha as [Ht [He Hs]].
    apply Z.leb_le in Hm. rewrite Hs in Hm. tauto.
  - intros [Ht [He Hm]]. exists (t, distinct_sources t edges). split; [reflexivity |].
    apply filter_In. split.
    + apply addr_contribs_In. cbn [fst snd]. tauto.
    + cbn [snd]. now apply Z.leb_le.
Qed.

(** X1. An address is kept by the threshold exactly when it is present, some
    edge reaches it, and the edges that reach it have at least [m] distinct
    present sources. *)
Theorem addr_keep_spec (m : Z) (edges : list Edge.t) (t : cell) :
  In t (addr_keep m edges)
  <-> t <> NaN /\ (exists e, In e edges /\ Edge.target e = t)
      /\ m <= distinct_sources t edges.
Proof. apply addr_keep_In_iff. Qed.

(** X2. A node is in the filtered node table exactly when it is in the node
    table, its total lies in the range, and it is either an address node
    kept by the threshold or a contributor node whose type is selected, any
    type being selected when the selection is empty. *)
Theorem nodes_f_spec (p : params) (nodes : list Node.t) (edges : list Edge.t)
    (n : Node.t) :
  In n (nodes_f p nodes edges)
  <-> In n nodes
      /\ between (fst (sel_amt p)) (snd (sel_amt p)) (Node.total_amount n) = true
      /\ (Node.type n = Str "address" /\ In (Node.id n) (addr_keep (min_contribs p) edges)
          \/ Node.type n = Str "contributor"
             /\ (sel_types p = [] \/ In (Node.contrib_type n) (sel_types p))).
Proof.
  unfold nodes_f. rewrite !filter_In, orb_true_iff, andb_true_iff, isin_In.
  unfold is_addr, persons_ok, is_person. rewrite cell_eqb_eq.
  destruct (sel_types p) as [| c sel] eqn:Esel.
  - rewrite cell_eqb_eq. intuition congruence.
  - rewrite andb_true_iff, cell_eqb_eq, isin_In. intuition congruence.
Qed.

(** X3. An edge is in the filtered edge table exactly when it is in the edge
    table and both its source and its target are ids of filtered nodes: no
    edge between two kept nodes is dropped. *)
Theorem edges_f_spec (p : params) (nodes : list Node.t) (edges : list Edge.t)
    (e : Edge.t) :
  In e (edges_f p nodes edges)
  <-> In e edges
      /\ (exists n, In n (nodes_f p nodes edges) /\ Node.id n = Edge.source e)
      /\ (exists n, In n (nodes_f p nodes edges) /\ Node.id n = Edge.target e).
Proof.
  unfold edges_f. rewrite filter_In, andb_true_iff, !isin_In, !unique_In, !in_map_iff.
  split; intros [He [[n1 [H1 H2]] [n2 [H3 H4]]]]; (split; [assumption |]); split;
    eauto.
Qed.

(** ** How the filter engine answers to its parameters *)

Lemma SFleb_trans (a x b : spec_float) :
  SFleb a x = true -> SFleb x b = true -> SFleb a b = true.
Proof.
  unfold SFleb.
  destruct a as [sa | sa | | sa ma ea], x as [sx | sx | | sx mx ex],
    b as [sb | sb | | sb mb eb]; simpl;
    try discriminate; try reflexivity;
    repeat match goal with s : bool |- _ => destruct s end; simpl;
    try discriminate; try reflexivity.
  all: rewrite ?Pos.compare_cont_spec; simpl.
  all: repeat match goal with
       | |- context [Z.compare ?u ?v] => destruct (Z.compare_spec u v); subst
       | |- context [Pos.compare ?u ?v] => destruct (Pos.compare_spec u v); subst
       end; simpl; try discriminate; try reflexivity; intros; try lia.
Qed.

Lemma leb_trans (a x b : float) :
  (a <=? x)%float = true -> (x <=? b)%float = true -> (a <=? b)%float = true.
Proof. rewrite !leb_spec. apply SFleb_trans. Qed.

Lemma leb_nan_r (a x : float) : is_nan x = true -> (a <=? x)%float = false.
Proof.
  intros H. rewrite leb_spec. unfold Prim2SF at 2. rewrite H.
  unfold SFleb. now destruct (Prim2SF a).
Qed.

Lemma edges_f_incl (p q : params) (nodes : list Node.t) (edges : list Edge.t) :
  incl (nodes_f p nodes edges) (nodes_f q nodes edges) ->
  incl (edges_f p nodes edges) (edges_f q nodes edges).
Proof.
  intros H e. unfold edges_f.
  rewrite !filter_In, !andb_true_iff, !isin_In, !unique_In, !in_map_iff.
  intros [He [[n1 [H1 H2]] [n2 [H3 H4]]]].
  split; [assumption |]. split; [exists n1 | exists n2]; split; auto.
Qed.

(** X4. Raising the threshold of the filter engine, the selection and the
    range being the same, adds no node and no edge to the result. *)
Theorem filter_threshold_monotone (p : params) (m : Z) (nodes : list Node.t)
    (edges : list Edge.t) :
  min_contribs p <= m ->
  incl (fst (filter_graph (with_min_contribs m p) nodes edges))
       (fst (filter_graph p nodes edges))
  /\ incl (snd (filter_graph (with_min_contribs m p) nodes edges))
          (snd (filter_graph p nodes edges)).
Proof.
  intros Hle. cbn [filter_graph fst snd].
  assert (Hn : incl (nodes_f (with_min_contribs m p) nodes edges) (nodes_f p nodes edges)).
  { intros n. unfold nodes_f, with_min_contribs. cbn [min_contribs sel_amt sel_types].
    rewrite !filter_In, !orb_true_iff, !andb_true_iff, !isin_In.
    intros [[Hin [[Ha Hk] | Hp]] Hb]; (split; [split; [assumption |] | assumption]).
    - left. split; [assumption |]. unfold addr_keep in *.
      rewrite unique_In, in_map_iff in *. destruct Hk as [a [Ea Hk]].
      exists a. split; [assumption |]. apply filter_In in Hk. apply filter_In.
      destruct Hk as [Hk Hm]. split; [assumption |].
      apply Z.leb_le in Hm. apply Z.leb_le. lia.
    - now right. }
  split; [assumption | now apply edges_f_incl].
Qed.

Lemma filter_threshold_monotone_witness :
  incl (fst (filter_graph (with_min_contribs 3 scenario_params)
               (nodes scenario_graph) (edges scenario_graph)))
       (fst (filter_graph scenario_params (nodes scenario_graph) (edges scenario_graph)))
  /\ incl (snd (filter_graph (with_min_contribs 3 scenario_params)
                  (nodes scenario_graph) (edges scenario_graph)))
          (snd (filter_graph scenario_params (nodes scenario_graph) (edges scenario_graph))).
Proof.
  apply (@filter_threshold_monotone scenario_params 3).
  vm_compute. discriminate.
Defined.

(** X5. Widening the range of totals, the threshold and the selection being
    the same, removes no node and no edge from the result. *)
Theorem filter_range_monotone (p : params) (lo hi : float) (nodes : list Node.t)
    (edges : list Edge.t) :
  (lo <=? fst (sel_amt p))%float = true ->
  (snd (sel_amt p) <=? hi)%float = true ->
  incl (fst (filter_graph p nodes edges))
       (fst (filter_graph (with_sel_amt (lo, hi) p) nodes edges))
  /\ incl (snd (filter_graph p nodes edges))
          (snd (filter_graph (with_sel_amt (lo, hi) p) nodes edges)).
Proof.
  intros Hlo Hhi. cbn [filter_graph fst snd].
  assert (Hn : incl (nodes_f p nodes edges) (nodes_f (with_sel_amt (lo, hi) p) nodes edges)).
  { intros n. unfold nodes_f, with_sel_amt. cbn [min_contribs sel_amt sel_types fst snd].
    rewrite !filter_In. intros [Hin Hb]. split; [assumption |].
    unfold between in *. apply andb_true_iff in Hb. destruct Hb as [H1 H2].
    apply andb_true_iff. split; eapply leb_trans; eassumption. }
  split; [assumption | now apply edges_f_incl].
Qed.

Lemma filter_range_monotone_witness :
  incl (fst (filter_graph scenario_params (nodes scenario_graph) (edges scenario_graph)))
       (fst (filter_graph (with_sel_amt (0%float, 150%float) scenario_params)
               (nodes scenario_graph) (edges scenario_graph)))
  /\ incl (snd (filter_graph scenario_params (nodes scenario_graph) (edges scenario_graph)))
          (snd (filter_graph (with_sel_amt (0%float, 150%float) scenario_params)
                  (nodes scenario_graph) (edges scenario_graph))).
Proof.
  apply (@filter_range_monotone scenario_params 0%float 150%float); vm_compute; reflexivity.
Defined.

(** X6. An empty selection of types restricts nothing: whatever is kept
    under a selection is kept under the empty one. *)
Theorem filter_empty_selection (p : params) (nodes : list Node.t) (edges : list Edge.t) :
  incl (fst (filter_graph p nodes edges))
       (fst (filter_graph (with_sel_types [] p) nodes edges))
  /\ incl (snd (filter_graph p nodes edges))
          (snd (filter_graph (with_sel_types [] p) nodes edges)).
Proof.
  cbn [filter_graph fst snd].
  assert (Hn : incl (nodes_f p nodes edges) (nodes_f (with_sel_types [] p) nodes edges)).
  { intros n. unfold nodes_f, with_sel_types. cbn [min_contribs sel_amt sel_types].
    rewrite !filter_In, !orb_true_iff.
    intros [[Hin [Ha | Hp]] Hb]; (split; [split; [assumption |] | assumption]).
    - now left.
    - right. now apply persons_ok_person in Hp. }
  split; [assumption | now apply edges_f_incl].
Qed.

(** X7. A node whose total is not a number passes no range: it is in no
    filtered node table, whatever the parameters. *)
Theorem nan_total_filtered_out (p : params) (nodes : list Node.t) (edges : list Edge.t)
    (n : Node.t) :
  is_nan (Node.total_amount n) = true ->
  ~ In n (fst (filter_graph p nodes edges)).
Proof.
  intros Hnan. cbn [filter_graph fst]. unfold nodes_f. rewrite filter_In.
  intros [_ Hb]. unfold between in Hb. apply andb_true_iff in Hb.
  destruct Hb as [Hb _]. rewrite (leb_nan_r _ _ Hnan) in Hb. discriminate.
Qed.

Lemma nan_total_filtered_out_witness :
  ~ In no_total (fst (filter_graph scenario_params [alice; no_total]
                        [alice_at_main_st])).
Proof.
  apply (@nan_total_filtered_out scenario_params [alice; no_total] [alice_at_main_st]).
  reflexivity.
Defined.

(** ** The summary *)

Lemma count_split {A : Type} (f g : A -> bool) (l : list A) :
  (forall x, In x l -> f x = negb (g x)) ->
  count (filter f l) + count (filter g l) = count l.
Proof.
  unfold count. induction l as [| a l IH]; intros H; [reflexivity |].
  assert (IH' := IH (fun x Hx => H x (or_intror Hx))).
  cbn [filter]. rewrite (H a (or_introl eq_refl)).
  destruct (g a); cbn [negb List.length]; lia.
Qed.

Lemma count_filter_le {A : Type} (f : A -> bool) (l : list A) :
  count (filter f l) <= count l.
Proof.
  unfold count. induction l as [| a l IH]; cbn [filter]; [lia |].
  destruct (f a); cbn [List.length]; lia.
Qed.

(** X8. Every node of the filtered node table is an address node or a
    contributor node, and not both: the two counts of the summary add up to
    the number of nodes shown, which is at most the number of nodes. *)
Theorem summary_counts (p : params) (nodes : list Node.t) (edges : list Edge.t) :
  n_addr (nodes_f p nodes edges) + n_people (nodes_f p nodes edges)
  = count (nodes_f p nodes edges)
  /\ count (nodes_f p nodes edges) <= count nodes.
Proof.
  split.
  - apply count_split. intros n Hn. unfold nodes_f in Hn.
    apply filter_In in Hn. destruct Hn as [Hn _]. apply filter_In in Hn.
    destruct Hn as [_ Hn]. apply orb_true_iff in Hn. destruct Hn as [Hn | Hn].
    + apply andb_true_iff in Hn. destruct Hn as [Ha _]. rewrite Ha.
      unfold is_addr, is_person in *. apply cell_eqb_eq in Ha. now rewrite Ha.
    + apply persons_ok_person in Hn. rewrite Hn. now apply person_not_addr.
  - unfold nodes_f. etransitivity; apply count_filter_le.
Qed.

(** ** The range of the sidebar *)

Lemma Prim2SF_not_nan (x : float) : is_nan x = false -> Prim2SF x <> S754_nan.
Proof.
  intros H. unfold Prim2SF. rewrite H.
  destruct (is_zero x); [discriminate |].
  destruct (is_infinity x); [discriminate |].
  destruct (Z.frexp x) as [r e].
  destruct (shr_fexp _ _ _ _ _) as [s e'].
  destruct (shr_m s); discriminate.
Qed.

Lemma SFleb_refl (x : spec_float) : x <> S754_nan -> SFleb x x = true.
Proof.
  unfold SFleb. destruct x as [s | s | | s m e]; simpl; try congruence; intros _.
  - now destruct s.
  - rewrite Z.compare_refl, Pos.compare_cont_spec, Pos.compare_refl.
    now destruct s.
Qed.

Lemma SFleb_total (a b : spec_float) :
  a <> S754_nan -> b <> S754_nan -> SFltb a b = false -> SFleb b a = true.
Proof.
  unfold SFleb, SFltb.
  destruct a as [sa | sa | | sa ma ea], b as [sb | sb | | sb mb eb]; simpl;
    try congruence; intros _ _;
    repeat match goal with s : bool |- _ => destruct s end; simpl;
    try discriminate; try reflexivity.
  all: rewrite ?Pos.compare_cont_spec; simpl.
  all: rewrite (Z.compare_antisym ea eb), (Pos.compare_antisym ma mb).
  all: destruct (Z.compare ea eb); simpl; try discriminate; try reflexivity.
  all: destruct (Pos.compare ma mb); simpl; try discriminate; try reflexivity.
Qed.

Lemma leb_refl (x : float) : is_nan x = false -> (x <=? x)%float = true.
Proof. intros H. rewrite leb_spec. now apply SFleb_refl, Prim2SF_not_nan. Qed.

Lemma leb_total (a b : float) :
  is_nan a = false -> is_nan b = false -> (a <? b)%float = false ->
  (b <=? a)%float = true.
Proof.
  intros Ha Hb. rewrite ltb_spec, leb_spec.
  apply SFleb_total; now apply Prim2SF_not_nan.
Qed.

Lemma ltb_leb (a b : float) : (a <? b)%float = true -> (a <=? b)%float = true.
Proof.
  rewrite ltb_spec, leb_spec. unfold SFltb, SFleb.
  destruct (SFcompare _ _) as [[| |] |]; congruence.
Qed.

Section Extremes.
Variable pick : float -> float -> bool.
Variable le : float -> float -> bool.
Hypothesis le_refl : forall x, is_nan x = false -> le x x = true.
Hypothesis le_trans : forall a x b, le a x = true -> le x b = true -> le a b = true.
Hypothesis pick_le : forall x acc, pick x acc = true -> le x acc = true.
Hypothesis keep_le : forall x acc,
  is_nan x = false -> is_nan acc = false -> pick x acc = false -> le acc x = true.

Lemma extreme_le_acc (l : list float) (acc : float) :
  is_nan acc = false ->
  is_nan (extreme pick l acc) = false /\ le (extreme pick l acc) acc = true.
Proof.
  revert acc. induction l as [| a l IH]; intros acc Hacc; cbn [extreme fold_left].
  - split; [assumption | now apply le_refl].
  - fold (extreme pick l). destruct (is_nan a) eqn:Ea; [now apply IH |].
    rewrite Hacc. destruct (pick a acc) eqn:Ep.
    + destruct (IH a Ea) as [H1 H2]. split; [assumption |].
      eapply le_trans; [eassumption | now apply pick_le].
    + now apply IH.
Qed.

Lemma extreme_le (l : list float) (acc x : float) :
  In x l -> is_nan x = false -> le (extreme pick l acc) x = true.
Proof.
  revert acc. induction l as [| a l IH]; intros acc Hin Hx; [contradiction |].
  cbn [extreme fold_left]. fold (extreme pick l).
  destruct Hin as [-> | Hin].
  - rewrite Hx. destruct (is_nan acc) eqn:Eacc.
    + now apply extreme_le_acc.
    + destruct (pick x acc) eqn:Ep.
      * now apply extreme_le_acc.
      * destruct (@extreme_le_acc l acc Eacc) as [_ H].
        eapply le_trans; [eassumption | now apply keep_le].
  - now apply IH.
Qed.

End Extremes.

(** X9. The range the sidebar starts from, the least and the greatest total
    of the node table, lets through every node whose total is a number. *)
Theorem default_range_keeps_numbers (nodes : list Node.t) (n : Node.t) :
  In n nodes ->
  is_nan (Node.total_amount n) = false ->
  between (amt_min nodes) (amt_max nodes) (Node.total_amount n) = true.
Proof.
  intros Hin Hx. unfold between, amt_min, amt_max.
  assert (Hin' : In (Node.total_amount n) (map Node.total_amount nodes))
    by now apply in_map.
  apply andb_true_iff. split.
  - apply (@extreme_le (fun x acc => PrimFloat.ltb x acc) PrimFloat.leb
             (@leb_refl) (@leb_trans)
             (fun x acc H => @ltb_leb x acc H)
             (fun x acc Hx' Hacc H => @leb_total x acc Hx' Hacc H));
      assumption.
  - apply (@extreme_le (fun x acc => PrimFloat.ltb acc x) (fun a b => PrimFloat.leb b a)
             (@leb_refl)
             (fun a x b H1 H2 => @leb_trans b x a H2 H1)
             (fun x acc H => @ltb_leb acc x H)
             (fun x acc Hx' Hacc H => @leb_total acc x Hacc Hx' H));
      assumption.
Qed.

Lemma default_range_keeps_numbers_witness :
  between (amt_min [alice; bob; main_st]) (amt_max [alice; bob; main_st])
          (Node.total_amount bob) = true.
Proof.
  apply (@default_range_keeps_numbers [alice; bob; main_st] bob).
  - right. left. reflexivity.
  - reflexivity.
Defined.

(** ** The selection the sidebar starts from *)

Lemma insert_cell_perm (c : cell) (l : list cell) : Permutation (c :: l) (insert_cell c l).
Proof.
  induction l as [| h t IH]; simpl; [reflexivity |].
  destruct (cell_compare c h); try reflexivity.
  rewrite perm_swap. now apply perm_skip.
Qed.

Lemma sorted_cells_perm (l : list cell) : Permutation l (sorted_cells l).
Proof.
  induction l as [| c l IH]; simpl; [reflexivity |].
  rewrite <- insert_cell_perm. now apply perm_skip.
Qed.

Lemma types_In (nodes : list Node.t) (t : cell) :
  In t (types nodes) <-> t <> NaN /\ exists n, In n nodes /\ Node.contrib_type n = t.
Proof.
  unfold types. split.
  - intros H. apply (Permutation_in _ (Permutation_sym (sorted_cells_perm _))) in H.
    apply present_values_In in H. destruct H as [H Ht]. apply in_map_iff in H.
    destruct H as [n [E Hn]]. split; [assumption | now exists n].
  - intros [Ht [n [Hn E]]]. apply (Permutation_in _ (sorted_cells_perm _)).
    apply present_values_In. split; [| assumption]. apply in_map_iff. now exists n.
Qed.

Lemma is_individual_present (t : cell) : is_individual t = true -> t <> NaN.
Proof. intros H E. subst t. discriminate H. Qed.

(** X10. The selection of types the sidebar starts from.  When the type of
    some node reads "individual" in any case, it keeps the contributor nodes
    of such a type and no other.  When none does, it keeps the contributor
    nodes that have a type, and every contributor node when no node has
    one. *)
Theorem default_selection (nodes : list Node.t) (n : Node.t) :
  In n nodes ->
  ((exists n0, In n0 nodes /\ is_individual (Node.contrib_type n0) = true) ->
   (persons_ok (default_types (types nodes)) n = true
    <-> is_person n = true /\ is_individual (Node.contrib_type n) = true))
  /\ ((forall n0, In n0 nodes -> is_individual (Node.contrib_type n0) = false) ->
      (persons_ok (default_types (types nodes)) n = true
       <-> is_person n = true
           /\ (Node.contrib_type n <> NaN
               \/ forall n0, In n0 nodes -> Node.contrib_type n0 = NaN))).
Proof.
  intros Hin. split.
  - intros [n0 [H0 I0]].
    assert (Hne : In (Node.contrib_type n0) (filter is_individual (types nodes))).
    { apply filter_In. split; [| assumption]. apply types_In.
      split; [now apply is_individual_present | now exists n0]. }
    unfold default_types.
    destruct (filter is_individual (types nodes)) as [| c sel] eqn:E; [contradiction |].
    unfold persons_ok. rewrite andb_true_iff, isin_In, <- E, filter_In, types_In.
    split.
    + tauto.
    + intros [Hp Hi]. split; [assumption |]. split; [| assumption].
      split; [now apply is_individual_present | now exists n].
  - intros Hnone.
    assert (E : filter is_individual (types nodes) = []).
    { apply filter_none. intros t Ht. apply types_In in Ht.
      destruct Ht as [_ [n0 [H0 <-]]]. now apply Hnone. }
    unfold default_types. rewrite E.
    destruct (types nodes) as [| c ts] eqn:Et.
    + unfold persons_ok. split.
      * intros Hp. split; [assumption |]. right. intros n0 H0.
        destruct (Node.contrib_type n0) eqn:E0; [reflexivity | |];
          (assert (Hc : In (Node.contrib_type n0) (types nodes))
            by (apply types_In; split; [rewrite E0; discriminate | now exists n0]));
          rewrite Et in Hc; contradiction.
      * tauto.
    + unfold persons_ok. rewrite andb_true_iff, isin_In, <- Et, types_In. split.
      * intros [Hp [Hc _]]. tauto.
      * intros [Hp [Hc | Hall]]; (split; [assumption |]).
        -- split; [assumption | now exists n].
        -- assert (Hc : In c (types nodes)) by (rewrite Et; now left).
           apply types_In in Hc. destruct Hc as [Hc [n0 [H0 E0]]].
           rewrite (Hall n0 H0) in E0. congruence.
Qed.

Lemma default_selection_witness :
  ((exists n0, In n0 [alice; bob; main_st] /\ is_individual (Node.contrib_type n0) = true) ->
   (persons_ok (default_types (types [alice; bob; main_st])) alice = true
    <-> is_person alice = true /\ is_individual (Node.contrib_type alice) = true))
  /\ ((forall n0, In n0 [alice; bob; main_st] ->
                  is_individual (Node.contrib_type n0) = false) ->
      (persons_ok (default_types (types [alice; bob; main_st])) alice = true
       <-> is_person alice = true
           /\ (Node.contrib_type alice <> NaN
               \/ forall n0, In n0 [alice; bob; main_st] -> Node.contrib_type n0 = NaN))).
Proof.
  apply (@default_selection [alice; bob; main_st] alice). left. reflexivity.
Defined.

(** ** The table of the top shared addresses *)

Lemma insert_top_perm (a : Top.t) (l : list Top.t) : Permutation (a :: l) (insert_top a l).
Proof.
  induction l as [| b l IH]; simpl; [reflexivity |].
  destruct (above b a); [| reflexivity].
  rewrite perm_swap. now apply perm_skip.
Qed.

Lemma sort_top_perm (l : list Top.t) : Permutation l (fold_right insert_top [] l).
Proof.
  induction l as [| a l IH]; simpl; [reflexivity |].
  rewrite <- insert_top_perm. now apply perm_skip.
Qed.

Lemma above_spec (a b : Top.t) : above b a = false <-> ranks_before a b.
Proof.
  unfold above, ranks_before.
  rewrite orb_false_iff, andb_false_iff, Z.ltb_ge, Z.eqb_neq, Z.ltb_ge. lia.
Qed.

Lemma above_ranks (a b : Top.t) : above b a = true -> ranks_before b a.
Proof.
  unfold above, ranks_before.
  rewrite orb_true_iff, andb_true_iff, Z.ltb_lt, Z.eqb_eq, Z.ltb_lt. lia.
Qed.

Lemma ranks_before_trans (a b c : Top.t) :
  ranks_before a b -> ranks_before b c -> ranks_before a c.
Proof. unfold ranks_before. lia. Qed.

Lemma insert_top_sorted (a : Top.t) (l : list Top.t) :
  StronglySorted ranks_before l -> StronglySorted ranks_before (insert_top a l).
Proof.
  induction l as [| b l IH]; intros Hs; simpl.
  - constructor; constructor.
  - inversion Hs as [| b' l' Hs' Hall]; subst.
    destruct (above b a) eqn:E.
    + constructor; [now apply IH |].
      apply Forall_forall. intros x Hx.
      apply (Permutation_in _ (Permutation_sym (insert_top_perm a l))) in Hx.
      destruct Hx as [<- | Hx]; [now apply above_ranks |].
      rewrite Forall_forall in Hall. now apply Hall.
    + apply above_spec in E. constructor; [assumption |].
      constructor; [assumption |].
      apply Forall_forall. intros x Hx. rewrite Forall_forall in Hall.
      eapply ranks_before_trans; [eassumption | now apply Hall].
Qed.

Lemma sort_top_sorted (l : list Top.t) :
  StronglySorted ranks_before (fold_right insert_top [] l).
Proof.
  induction l as [| a l IH]; simpl; [constructor | now apply insert_top_sorted].
Qed.

Lemma In_firstn {A : Type} (k : nat) (l : list A) (x : A) : In x (firstn k l) -> In x l.
Proof.
  revert l. induction k as [| k IH]; intros [| a l]; simpl; try contradiction.
  intros [H | H]; [now left | right; now apply IH].
Qed.

Lemma firstn_sorted {A : Type} (R : A -> A -> Prop) (k : nat) (l : list A) :
  StronglySorted R l -> StronglySorted R (firstn k l).
Proof.
  revert l. induction k as [| k IH]; intros l Hs; [constructor |].
  destruct l as [| a l]; [constructor |].
  inversion Hs as [| a' l' Hs' Hall]; subst. cbn [firstn].
  constructor; [now apply IH |].
  apply Forall_forall. intros x Hx. rewrite Forall_forall in Hall.
  apply Hall. eapply In_firstn. eassumption.
Qed.

Lemma count_unique_le (l : list cell) : count (unique l) <= count l.
Proof.
  unfold count. induction l as [| c l IH]; simpl; [lia |].
  pose proof (@count_filter_le _ (fun d => negb (cell_eqb d c)) (unique l)) as H.
  unfold count in H. lia.
Qed.

Lemma count_map {A B : Type} (f : A -> B) (l : list A) : count (map f l) = count l.
Proof. unfold count. now rewrite length_map. Qed.

Lemma group_nonempty {R : Type} (by_ : R -> key) (rows : list R) (g : key * list R) :
  In g (groupby by_ rows) -> 1 <= count (snd g).
Proof.
  intros Hg. apply groupby_In in Hg. destruct Hg as [-> [r [Hr [Hn Hk]]]].
  assert (Hin : In r (members by_ (fst g) rows)).
  { unfold members, present. rewrite !filter_In. rewrite Hk.
    split; [split; assumption | apply key_eqb_refl]. }
  unfold count. destruct (members by_ (fst g) rows); [contradiction | simpl; lia].
Qed.

(** X11. The table of the top shared addresses has at most twelve rows, in
    the order of their number of contributors and then of their number of
    edges, the greatest first.  A row stands for a target of the shown
    edges, with at least one edge and no more distinct contributors than
    edges, and its label is that of a shown address node or is missing. *)
Theorem top_table (shown : list Node.t) (shown_edges : list Edge.t) :
  (List.length (top shown shown_edges) <= 12)%nat
  /\ StronglySorted ranks_before (top shown shown_edges)
  /\ (forall r, In r (top shown shown_edges) ->
        0 <= Top.contributors r <= Top.tx r /\ 1 <= Top.tx r
        /\ (Top.label r = NaN
            \/ exists n, In n shown /\ is_addr n = true /\ Node.label n = Top.label r)).
Proof.
  unfold top. split; [apply firstn_le_length |].
  split; [apply firstn_sorted, sort_top_sorted |].
  intros r Hr. apply In_firstn in Hr.
  apply (Permutation_in _ (Permutation_sym (sort_top_perm _))) in Hr.
  apply in_flat_map in Hr. destruct Hr as [s [Hs Hr]].
  apply in_map_iff in Hs. destruct Hs as [g [<- Hg]].
  assert (Hstats : 0 <= snd (fst (target_stats g)) <= snd (target_stats g)
                   /\ 1 <= snd (target_stats g)).
  { unfold target_stats. cbn [fst snd]. split; [split |].
    - unfold count. lia.
    - etransitivity; [apply count_unique_le |].
      etransitivity; [apply count_filter_le |]. rewrite count_map. lia.
    - now apply group_nonempty in Hg. }
  unfold with_label in Hr.
  destruct (filter _ (filter is_addr shown)) as [| n0 found] eqn:E.
  - destruct Hr as [<- | []]. cbn [Top.contributors Top.tx Top.label]. tauto.
  - apply in_map_iff in Hr. destruct Hr as [n [<- Hn]].
    cbn [Top.contributors Top.tx Top.label].
    split; [tauto |]. split; [tauto |]. right. exists n.
    rewrite <- E in Hn. apply filter_In in Hn. destruct Hn as [Hn _].
    apply filter_In in Hn. tauto.
Qed.

(** ** Making sure the tables are there *)

Lemma file_exists_cons (name : string) (f : string * csv) (dir : directory) :
  file_exists name (f :: dir) = String.eqb (fst f) name || file_exists name dir.
Proof. reflexivity. Qed.

(** X12. When a table is missing and [prep.py] is there, [ensure_artifacts]
    runs the build and shows the toast whether or not the build succeeds.
    After a build that succeeds the three tables are written, and a second
    call changes nothing and shows nothing; after a build that fails the
    directory is as it was and the error is shown after the toast.  When
    [prep.py] is not there, nothing is run and a warning is shown. *)
Theorem ensure_artifacts_generates (df : DataFrame) (dir : directory) :
  file_exists "nodes.csv" dir && file_exists "edges.csv" dir = false ->
  (forall t, build N_MIN_AT_ADDRESS df = Ok t ->
     let dir' := fst (ensure_artifacts true df dir) in
     ensure_artifacts true df dir
     = (("top_shared_addresses.csv", TopSharedCsv (top_shared t))
        :: ("edges.csv", EdgesCsv (edges t))
        :: ("nodes.csv", NodesCsv (nodes t)) :: dir,
        [Toast "Generated nodes/edges from prep.py"])
     /\ forall prep_exists df', ensure_artifacts prep_exists df' dir' = (dir', []))
  /\ (forall e, build N_MIN_AT_ADDRESS df = Raise e ->
        ensure_artifacts true df dir
        = (dir, [Toast "Generated nodes/edges from prep.py"; Error e]))
  /\ ensure_artifacts false df dir
     = (dir, [Warning "prep.py not found; please upload nodes/edges manually."]).
Proof.
  intros Hmissing. split; [| split].
  - intros t Hb. cbn zeta.
    assert (E : ensure_artifacts true df dir
                = (("top_shared_addresses.csv", TopSharedCsv (top_shared t))
                   :: ("edges.csv", EdgesCsv (edges t))
                   :: ("nodes.csv", NodesCsv (nodes t)) :: dir,
                   [Toast "Generated nodes/edges from prep.py"])).
    { unfold ensure_artifacts, run. now rewrite Hmissing, Hb. }
    split; [assumption |].
    intros prep_exists df'. rewrite E. cbn [fst].
    unfold ensure_artifacts. rewrite !file_exists_cons. cbn [fst].
    replace (String.eqb "edges.csv" "edges.csv") with true by reflexivity.
    replace (String.eqb "nodes.csv" "nodes.csv") with true by reflexivity.
    replace (String.eqb "top_shared_addresses.csv" "nodes.csv") with false by reflexivity.
    replace (String.eqb "edges.csv" "nodes.csv") with false by reflexivity.
    reflexivity.
  - intros e Hb. unfold ensure_artifacts, run. now rewrite Hmissing, Hb.
  - unfold ensure_artifacts. now rewrite Hmissing.
Qed.

Lemma ensure_artifacts_generates_witness :
  (forall t, build N_MIN_AT_ADDRESS three_records = Ok t ->
     let dir' := fst (ensure_artifacts true three_records []) in
     ensure_artifacts true three_records []
     = ([("top_shared_addresses.csv", TopSharedCsv (top_shared t));
         ("edges.csv", EdgesCsv (edges t));
         ("nodes.csv", NodesCsv (nodes t))],
        [Toast "Generated nodes/edges from prep.py"])
     /\ forall prep_exists df', ensure_artifacts prep_exists df' dir' = (dir', []))
  /\ (forall e, build N_MIN_AT_ADDRESS three_records = Raise e ->
        ensure_artifacts true three_records []
        = ([], [Toast "Generated nodes/edges from prep.py"; Error e]))
  /\ ensure_artifacts false three_records []
     = ([], [Warning "prep.py not found; please upload nodes/edges manually."]).
Proof.
  apply (@ensure_artifacts_generates three_records []). reflexivity.
Defined.

(** ** Codes by first occurrence *)

Lemma unique_app (l1 l2 : list cell) :
  unique (l1 ++ l2)%list
  = (unique l1 ++ filter (fun d => negb (isin d l1)) (unique l2))%list.
Proof.
  induction l1 as [| a l1 IH]; cbn [app unique].
  - symmetry. apply filter_all. reflexivity.
  - rewrite IH, filter_app, filter_filter. cbn [app]. f_equal. f_equal.
    apply filter_ext. intros d. cbn [isin existsb].
    fold (isin d l1). now rewrite negb_orb, andb_comm.
Qed.

Lemma index_of_app (c : cell) (l1 l2 : list cell) :
  ~ In c l1 -> index_of c (l1 ++ c :: l2)%list = Some (List.length l1).
Proof.
  induction l1 as [| a l1 IH]; cbn [app index_of List.length]; intros H.
  - now rewrite cell_eqb_refl.
  - destruct (cell_eqb a c) eqn:E.
    + apply cell_eqb_eq in E. destruct H. now left.
    + rewrite IH; [reflexivity |]. intros H'. apply H. now right.
Qed.

Lemma code_of_lt (c : cell) (l : list cell) :
  In c l -> c <> NaN ->
  0 <= code_of (unique (filter notna l)) c < count (unique (filter notna l)).
Proof.
  intros H1 H2. unfold code_of, count.
  assert (Hin : In c (unique (filter notna l))) by now apply present_values_In.
  destruct (index_of_In _ _ Hin) as [i Hi]. rewrite Hi.
  assert (i < List.length (unique (filter notna l)))%nat; [| lia].
  clear Hin. revert i Hi. induction (unique (filter notna l)) as [| d u IH];
    cbn [index_of]; intros i; [discriminate |].
  destruct (cell_eqb d c).
  - intros E. inversion E. simpl. lia.
  - destruct (index_of c u) as [j |]; [| discriminate].
    intros E. inversion E. specialize (IH j eq_refl). simpl. lia.
Qed.

(** X13. [factorize] groups by exact equality and numbers the groups by
    first occurrence: a missing value has the code -1; a present value has
    the number of distinct present values that occur before its first
    occurrence, which is below the number of distinct present values; and
    two values of the list have the same code exactly when they are equal. *)
Theorem factorize_first_occurrence (l1 l2 : list cell) (c : cell) :
  ~ In c l1 -> c <> NaN ->
  let l := (l1 ++ c :: l2)%list in
  let code := code_of (unique (filter notna l)) in
  factorize l = map code l
  /\ code NaN = -1
  /\ code c = count (unique (filter notna l1))
  /\ code c < count (unique (filter notna l))
  /\ (forall a b, In a l -> In b l -> (code a = code b <-> a = b)).
Proof.
  intros Hnew Hc l code. split; [reflexivity |].
  split; [apply code_of_missing |].
  split; [| split].
  - unfold code, code_of, l. rewrite filter_app. cbn [filter].
    rewrite (notna_true Hc), unique_app. cbn [unique filter].
    assert (Hout : isin c (filter notna l1) = false).
    { destruct (isin c (filter notna l1)) eqn:E; [| reflexivity].
      apply isin_In, filter_In in E. tauto. }
    rewrite Hout. cbn [negb].
    rewrite index_of_app; [reflexivity |].
    rewrite unique_In, filter_In. tauto.
  - apply code_of_lt; [| assumption]. unfold l. apply in_or_app. right. now left.
  - intros a b Ha Hb. split; [now apply code_of_inj | now intros ->].
Qed.

Lemma factorize_first_occurrence_witness :
  let l := ([Str "1 Main St"] ++ Str "2 Oak Ave" :: [Str "1 Main St"])%list in
  let code := code_of (unique (filter notna l)) in
  factorize l = map code l
  /\ code NaN = -1
  /\ code (Str "2 Oak Ave") = count (unique (filter notna [Str "1 Main St"]))
  /\ code (Str "2 Oak Ave") < count (unique (filter notna l))
  /\ (forall a b, In a l -> In b l -> (code a = code b <-> a = b)).
Proof.
  apply (@factorize_first_occurrence [Str "1 Main St"] [Str "1 Main St"] (Str "2 Oak Ave")).
  - intros [H | []]. discriminate.
  - discriminate.
Defined.

(** ** Amounts *)



(** ** From the frame to the rows *)

Lemma astype_float_length (l : list string) (fs : list float) :
  astype_float l = Ok fs -> List.length fs = List.length l.
Proof.
  revert fs. induction l as [| s l IH]; intros fs; cbn [astype_float].
  - intros E. now inversion E.
  - destruct (float_of_string s); [| discriminate].
    destruct (astype_float l) as [fs' |]; cbn [bind]; [| discriminate].
    intros E. inversion E. simpl. now rewrite (IH fs' eq_refl).
Qed.

Lemma zip_rows_maps (names types addrs : list cell) (amounts : list float)
    (gids : list cell) :
  List.length types = List.length names ->
  List.length addrs = List.length names ->
  List.length amounts = List.length names ->
  List.length gids = List.length names ->
  let rows := zip_rows names types addrs amounts gids in
  map Row.Contributor_Name rows = names
  /\ map Row.Contributor_Type rows = types
  /\ map Row.full_address rows = addrs
  /\ map Row.Amount rows = amounts
  /\ map Row.group_id rows = gids.
Proof.
  revert types addrs amounts gids.
  induction names as [| n names IH];
    intros [| t types] [| a addrs] [| m amounts] [| g gids]; cbn [List.length];
    try discriminate; intros H1 H2 H3 H4.
  - repeat split.
  - destruct (IH types addrs amounts gids) as [E1 [E2 [E3 [E4 E5]]]]; try congruence.
    cbn [zip_rows map Row.Contributor_Name Row.Contributor_Type Row.full_address
         Row.Amount Row.group_id].
    now rewrite E1, E2, E3, E4, E5.
Qed.

Lemma load_zip (df : DataFrame) (names types addrs raw : list cell)
    (amounts : list float) (gids : list cell) :
  getitem df "Contributor Name" = Ok names ->
  getitem df "Contributor Type" = Ok types ->
  getitem df "full_address" = Ok addrs ->
  getitem df "Amount" = Ok raw ->
  astype_float (map clean_amount raw) = Ok amounts ->
  (if negb (mem_string "group_id" (columns df))
   then Ok (map Int (factorize addrs))
   else getitem df "group_id") = Ok gids ->
  load df = Ok (zip_rows names types addrs amounts gids).
Proof.
  intros Hn Ht Ha Hraw Hamt Hg.
  unfold load. rewrite Hraw. cbn [bind]. rewrite Hamt. cbn [bind].
  replace (assign_column "Amount" (columns df)) with (columns df)
    by (unfold assign_column; now rewrite (getitem_present _ _ Hraw)).
  unfold required. cbn [filter].
  rewrite (getitem_present _ _ Hn), (getitem_present _ _ Ht), (getitem_present _ _ Ha),
          (getitem_present _ _ Hraw).
  cbn [negb]. rewrite Hn, Ht, Ha. cbn [bind]. rewrite Hg. reflexivity.
Qed.

(** X16. A frame whose columns of names, types, addresses and amounts have
    one cell per row, with amounts that are all numbers, loads into one row
    per row of the frame, in the order of the frame: the names, the types and
    the addresses are those of the columns and the amounts are their
    numbers.  The groups are the codes of the addresses when the frame has
    no [group_id] column, and the cells of that column when it has one. *)
Theorem load_rows (df : DataFrame) (names types addrs raw : list cell)
    (amounts : list float) :
  getitem df "Contributor Name" = Ok names ->
  getitem df "Contributor Type" = Ok types ->
  getitem df "full_address" = Ok addrs ->
  getitem df "Amount" = Ok raw ->
  astype_float (map clean_amount raw) = Ok amounts ->
  List.length types = List.length names ->
  List.length addrs = List.length names ->
  List.length raw = List.length names ->
  exists rows,
    map Row.Contributor_Name rows = names
    /\ map Row.Contributor_Type rows = types
    /\ map Row.full_address rows = addrs
    /\ map Row.Amount rows = amounts
    /\ (mem_string "group_id" (columns df) = false ->
        load df = Ok rows /\ map Row.group_id rows = map Int (factorize addrs))
    /\ (forall gids, getitem df "group_id" = Ok gids ->
          List.length gids = List.length names ->
          exists rows', load df = Ok rows'
                        /\ map Row.group_id rows' = gids
                        /\ map Row.Contributor_Name rows' = names
                        /\ map Row.Contributor_Type rows' = types
                        /\ map Row.full_address rows' = addrs
                        /\ map Row.Amount rows' = amounts).
Proof.
  intros Hn Ht Ha Hraw Hamt L1 L2 L3.
  assert (L4 : List.length amounts = List.length names).
  { rewrite (astype_float_length _ Hamt), length_map. exact L3. }
  assert (Hload : forall gids,
            (if negb (mem_string "group_id" (columns df))
             then Ok (map Int (factorize addrs))
             else getitem df "group_id") = Ok gids ->
            load df = Ok (zip_rows names types addrs amounts gids))
    by (intros gids Hg; now apply (@load_zip df names types addrs raw amounts gids)).
  exists (zip_rows names types addrs amounts (map Int (factorize addrs))).
  assert (L5 : List.length (map Int (factorize addrs)) = List.length names).
  { unfold factorize. now rewrite !length_map. }
  destruct (zip_rows_maps names types addrs amounts (map Int (factorize addrs))
              L1 L2 L4 L5) as [E1 [E2 [E3 [E4 E5]]]].
  repeat (split; [assumption |]). split.
  - intros Hg. split; [| assumption]. apply Hload. now rewrite Hg.
  - intros gids Hg L6.
    exists (zip_rows names types addrs amounts gids).
    destruct (zip_rows_maps names types addrs amounts gids L1 L2 L4 L6)
      as [F1 [F2 [F3 [F4 F5]]]].
    split; [| tauto]. apply Hload. now rewrite (getitem_present _ _ Hg).
Qed.

Lemma load_rows_witness :
  exists rows,
    map Row.Contributor_Name rows = [Str "Alice"; Str "Bob"; Str "Carol"]
    /\ map Row.Contributor_Type rows = [Str "Individual"; Str "Individual"; Str "PAC"]
    /\ map Row.full_address rows = [Str "1 Main St"; Str "1 Main St"; Str "2 Oak Ave"]
    /\ map Row.Amount rows = [100%float; 50%float; 200%float]
    /\ (mem_string "group_id" (columns three_records) = false ->
        load three_records = Ok rows
        /\ map Row.group_id rows
           = map Int (factorize [Str "1 Main St"; Str "1 Main St"; Str "2 Oak Ave"]))
    /\ (forall gids, getitem three_records "group_id" = Ok gids ->
          List.length gids = List.length [Str "Alice"; Str "Bob"; Str "Carol"] ->
          exists rows', load three_records = Ok rows'
                        /\ map Row.group_id rows' = gids
                        /\ map Row.Contributor_Name rows'
                           = [Str "Alice"; Str "Bob"; Str "Carol"]
                        /\ map Row.Contributor_Type rows'
                           = [Str "Individual"; Str "Individual"; Str "PAC"]
                        /\ map Row.full_address rows'
                           = [Str "1 Main St"; Str "1 Main St"; Str "2 Oak Ave"]
                        /\ map Row.Amount rows' = [100%float; 50%float; 200%float]).
Proof.
  apply (@load_rows three_records
           [Str "Alice"; Str "Bob"; Str "Carol"]
           [Str "Individual"; Str "Individual"; Str "PAC"]
           [Str "1 Main St"; Str "1 Main St"; Str "2 Oak Ave"]
           [Str "$100"; Str "$50"; Str "$200"]
           [100%float; 50%float; 200%float]);
    reflexivity.
Defined.

(** ** The statistics of the addresses and the retained groups *)

Lemma members_by_group (g a : cell) (rows : list Row.t) :
  g <> NaN -> a <> NaN ->
  members by_group [g; a] rows
  = filter (fun r => cell_eqb (Row.group_id r) g && cell_eqb (Row.full_address r) a) rows.
Proof.
  intros Hg Ha. unfold members, present. rewrite filter_filter.
  apply filter_ext. intros r. unfold by_group. cbn [forallb key_eqb].
  rewrite !andb_true_r.
  destruct (cell_eqb (Row.group_id r) g) eqn:E1; [| apply andb_false_r].
  destruct (cell_eqb (Row.full_address r) a) eqn:E2; [| apply andb_false_r].
  apply cell_eqb_eq in E1, E2. rewrite E1, E2.
  now rewrite (notna_true Hg), (notna_true Ha).
Qed.

Lemma addr_stats_In (a : AddrStat.t) (rows : list Row.t) :
  In a (addr_stats rows)
  <-> AddrStat.group_id a <> NaN /\ AddrStat.full_address a <> NaN
      /\ (exists r, In r rows /\ Row.group_id r = AddrStat.group_id a
                    /\ Row.full_address r = AddrStat.full_address a)
      /\ a = stat_of ([AddrStat.group_id a; AddrStat.full_address a],
                      filter (fun r => cell_eqb (Row.group_id r) (AddrStat.group_id a)
                                       && cell_eqb (Row.full_address r)
                                                   (AddrStat.full_address a)) rows).
Proof.
  unfold addr_stats. rewrite in_map_iff. split.
  - intros [g [<- Hg]]. apply groupby_In in Hg.
    destruct Hg as [Hm [r [Hr [Hn Hk]]]].
    destruct g as [k ms]. cbn [fst snd] in *. subst k ms.
    unfold stat_of at 1 2 3 4 5 6. cbn [fst snd AddrStat.group_id AddrStat.full_address].
    change (by_group r) with [Row.group_id r; Row.full_address r] in *.
    cbn [nth forallb] in *.
    apply andb_true_iff in Hn. destruct Hn as [N1 N2]. rewrite andb_true_r in N2.
    assert (G : Row.group_id r <> NaN) by (intros E; rewrite E in N1; discriminate).
    assert (A : Row.full_address r <> NaN) by (intros E; rewrite E in N2; discriminate).
    split; [assumption |]. split; [assumption |]. split; [now exists r |].
    now rewrite (members_by_group rows G A).
  - intros [G [A [[r [Hr [Eg Ea]]] Hs]]].
    exists ([AddrStat.group_id a; AddrStat.full_address a],
            members by_group [AddrStat.group_id a; AddrStat.full_address a] rows).
    split.
    + rewrite (members_by_group rows G A). now symmetry.
    + apply groupby_In_iff. cbn [fst snd]. split; [reflexivity |].
      exists r. unfold by_group. rewrite Eg, Ea. cbn [forallb].
      rewrite (notna_true G), (notna_true A). auto.
Qed.

(** X17. Every row of the address statistics stands for a present group and
    a present address that some record carries; its contributors are the
    distinct names of the records of that group at that address, at least
    one and at most as many as its transactions, which are those records. *)
Theorem addr_stats_rows (rows : list Row.t) (a : AddrStat.t) :
  In a (addr_stats rows) ->
  AddrStat.group_id a <> NaN /\ AddrStat.full_address a <> NaN
  /\ AddrStat.contributors a
     = distinct_names (AddrStat.group_id a) (AddrStat.full_address a) rows
  /\ AddrStat.tx_count a
     = count (filter (fun r => cell_eqb (Row.group_id r) (AddrStat.group_id a)
                               && cell_eqb (Row.full_address r) (AddrStat.full_address a))
                     rows)
  /\ 1 <= AddrStat.contributors a <= AddrStat.tx_count a.
Proof.
  intros Ha. apply addr_stats_In in Ha. destruct Ha as [G [A [[r [Hr [Eg Ea]]] Hs]]].
  set (ms := filter _ rows) in Hs.
  assert (Hin : In r ms).
  { apply filter_In. split; [assumption |]. rewrite Eg, Ea, !cell_eqb_refl. reflexivity. }
  assert (C : AddrStat.contributors a = count (unique (map Row.Contributor_Name ms)))
    by (rewrite Hs; reflexivity).
  assert (T : AddrStat.tx_count a = count ms) by (rewrite Hs; reflexivity).
  split; [assumption |]. split; [assumption |].
  split; [exact C |]. split; [exact T |].
  rewrite C, T. split.
  - destruct ms as [| r0 ms']; [contradiction |]. unfold count. simpl. lia.
  - etransitivity; [apply count_unique_le |]. rewrite count_map. lia.
Qed.

Lemma addr_stats_rows_witness :
  AddrStat.group_id main_st_stat <> NaN /\ AddrStat.full_address main_st_stat <> NaN
  /\ AddrStat.contributors main_st_stat
     = distinct_names (AddrStat.group_id main_st_stat)
         (AddrStat.full_address main_st_stat) three_rows
  /\ AddrStat.tx_count main_st_stat
     = count (filter (fun r => cell_eqb (Row.group_id r) (AddrStat.group_id main_st_stat)
                               && cell_eqb (Row.full_address r)
                                           (AddrStat.full_address main_st_stat))
                     three_rows)
  /\ 1 <= AddrStat.contributors main_st_stat <= AddrStat.tx_count main_st_stat.
Proof.
  apply (@addr_stats_rows three_rows main_st_stat). vm_compute. left. reflexivity.
Defined.

Lemma shared_addr_ids_In_iff (n_min : Z) (rows : list Row.t) (g : cell) :
  In g (shared_addr_ids n_min (addr_stats rows))
  <-> g <> NaN
      /\ exists a, a <> NaN
                   /\ (exists r, In r rows /\ Row.group_id r = g /\ Row.full_address r = a)
                   /\ n_min <= distinct_names g a rows.
Proof.
  unfold shared_addr_ids. rewrite unique_In, in_map_iff. split.
  - intros [a [<- Ha]]. apply filter_In in Ha. destruct Ha as [Ha Hn].
    apply Z.leb_le in Hn. apply addr_stats_In in Ha.
    destruct Ha as [G [A [Hr Hs]]]. split; [assumption |].
    exists (AddrStat.full_address a). split; [assumption |]. split; [assumption |].
    rewrite Hs in Hn. exact Hn.
  - intros [G [a [A [Hr Hn]]]].
    exists (stat_of ([g; a], filter (fun r => cell_eqb (Row.group_id r) g
                                             && cell_eqb (Row.full_address r) a) rows)).
    split; [reflexivity |]. apply filter_In. split.
    + apply addr_stats_In. cbn [stat_of fst snd nth AddrStat.group_id AddrStat.full_address].
      tauto.
    + apply Z.leb_le. exact Hn.
Qed.

(** X18. A group is retained exactly when it is present and, at some present
    address that a record of the group carries, the records of the group have
    at least [n_min] distinct contributor names. *)
Theorem shared_addr_ids_spec (n_min : Z) (rows : list Row.t) (g : cell) :
  In g (shared_addr_ids n_min (addr_stats rows))
  <-> g <> NaN
      /\ exists a, a <> NaN
                   /\ (exists r, In r rows /\ Row.group_id r = g /\ Row.full_address r = a)
                   /\ n_min <= distinct_names g a rows.
Proof. apply shared_addr_ids_In_iff. Qed.

(** ** The retained records *)

Lemma df_shared_rows (n_min : Z) (rows : list Row.t) :
  map Shared.row (df_shared n_min rows)
  = filter (fun r => isin (Row.group_id r) (shared_addr_ids n_min (addr_stats rows))) rows.
Proof.
  unfold df_shared, factorize. rewrite (map_map Row.Contributor_Name), combine_map, !map_map.
  cbn [fst snd with_ids Shared.row]. apply map_id.
Qed.

(** X19. The retained records are the records of the retained groups, in
    the order of the frame.  Each carries the identifier ["person:"] followed
    by the code of its name among the retained records, so that two retained
    records have the same contributor identifier exactly when they have the
    same name.  Each carries the identifier ["addr:"] followed by its group
    as line 56 prints it: a text as it is; an integer in digits when no
    record of the frame lacks its group, which is the case of the groups
    made on line 40; and an integer of magnitude up to 2^53 in digits
    followed by [.0] when some record of the frame lacks its group, the
    column being one of floats then. *)
Theorem retained_records (n_min : Z) (rows : list Row.t) :
  map Shared.row (df_shared n_min rows)
  = filter (fun r => isin (Row.group_id r) (shared_addr_ids n_min (addr_stats rows))) rows
  /\ (forall s, In s (df_shared n_min rows) ->
        Shared.contrib_id s
        = Str ("person:"
               ++ str_of_Z (code_of (unique (filter notna
                                               (map name_of (df_shared n_min rows))))
                                    (name_of s))))
  /\ (forall s1 s2, In s1 (df_shared n_min rows) -> In s2 (df_shared n_min rows) ->
        (Shared.contrib_id s1 = Shared.contrib_id s2 <-> name_of s1 = name_of s2))
  /\ (forall s, In s (df_shared n_min rows) ->
        (forall t, Row.group_id (Shared.row s) = Str t ->
                   Shared.address_id s = Str ("addr:" ++ t))
        /\ (forall z, Row.group_id (Shared.row s) = Int z ->
                      (forall r, In r rows -> Row.group_id r <> NaN) ->
                      Shared.address_id s = Str ("addr:" ++ str_of_Z z))
        /\ (forall z, Row.group_id (Shared.row s) = Int z ->
                      (exists r, In r rows /\ Row.group_id r = NaN) ->
                      Z.abs z <= 2 ^ 53 ->
                      Shared.address_id s = Str ("addr:" ++ str_of_Z z ++ ".0")))
  /\ (factorized rows -> forall r, In r rows -> Row.group_id r <> NaN).
Proof.
  split; [apply df_shared_rows |]. split; [| split; [| split]].
  - intros s Hs.
    assert (Hnames : map name_of (df_shared n_min rows)
                     = map Row.Contributor_Name
                         (filter (fun r => isin (Row.group_id r)
                                             (shared_addr_ids n_min (addr_stats rows))) rows)).
    { rewrite <- df_shared_rows, map_map. reflexivity. }
    rewrite Hnames. clear Hnames.
    unfold df_shared, factorize in Hs. rewrite map_map, combine_map, map_map in Hs.
    cbn [fst snd] in Hs. apply in_map_iff in Hs. destruct Hs as [r [<- Hr]].
    reflexivity.
  - intros s1 s2. apply contrib_id_name.
  - intros s Hs. destruct (df_shared_In _ _ _ Hs) as [names [Hall _]].
    destruct (Hall s Hs) as [_ [_ E]]. rewrite E. clear E Hall.
    split; [| split].
    + intros t ->. reflexivity.
    + intros z -> Hall. replace (floating rows) with false; [reflexivity |].
      symmetry. unfold floating. destruct (existsb _ rows) eqn:E; [| reflexivity].
      apply existsb_exists in E. destruct E as [r [Hr E]].
      destruct (Row.group_id r) eqn:G; try discriminate E.
      now destruct (Hall r Hr).
    + intros z -> [r [Hr G]] _. replace (floating rows) with true; [reflexivity |].
      symmetry. unfold floating. apply existsb_exists. exists r.
      split; [assumption |]. now rewrite G.
  - intros [addrs Hf] r Hr. destruct (Hf r Hr) as [_ G]. rewrite G. discriminate.
Qed.

(** X20. With a threshold of 1 or less, a frame without a [group_id] column
    keeps every record that has an address, and those only. *)
Theorem threshold_one_keeps_all (n_min : Z) (df : DataFrame) (rows : list Row.t) :
  load df = Ok rows ->
  mem_string "group_id" (columns df) = false ->
  n_min <= 1 ->
  map Shared.row (df_shared n_min rows)
  = filter (fun r => notna (Row.full_address r)) rows.
Proof.
  intros Hload Hg Hn. destruct (load_factorized df Hload Hg) as [addrs Hf].
  rewrite df_shared_rows. apply filter_ext_in. intros r Hr.
  destruct (Hf r Hr) as [A G].
  destruct (notna (Row.full_address r)) eqn:E.
  - apply isin_In, shared_addr_ids_In_iff.
    assert (Ha : Row.full_address r <> NaN) by (intros E'; rewrite E' in E; discriminate).
    split; [rewrite G; discriminate |].
    exists (Row.full_address r). split; [assumption |]. split; [now exists r |].
    unfold distinct_names.
    assert (Hin : In r (filter (fun r0 => cell_eqb (Row.group_id r0) (Row.group_id r)
                                          && cell_eqb (Row.full_address r0)
                                                      (Row.full_address r)) rows)).
    { apply filter_In. split; [assumption |]. now rewrite !cell_eqb_refl. }
    destruct (filter _ rows) as [| r0 ms]; [contradiction |].
    unfold count. simpl. lia.
  - destruct (isin (Row.group_id r) _) eqn:E'; [| reflexivity].
    apply isin_In, shared_addr_ids_In in E'. destruct E' as [r' [Hr' [Eg Ha']]].
    destruct (Hf r' Hr') as [A' G']. rewrite G, G' in Eg. inversion Eg as [Ec].
    apply (code_of_inj _ _ _ A' A) in Ec. rewrite Ec in Ha'.
    destruct (Row.full_address r); try discriminate. now destruct Ha'.
Qed.

Lemma threshold_one_keeps_all_witness :
  map Shared.row (df_shared 1 three_rows)
  = filter (fun r => notna (Row.full_address r)) three_rows.
Proof.
  apply (@threshold_one_keeps_all 1 three_records three_rows).
  - vm_compute. reflexivity.
  - reflexivity.
  - lia.
Defined.

Lemma getitem_of_present (df : DataFrame) (c : string) :
  mem_string c (columns df) = true -> exists v, getitem df c = Ok v.
Proof.
  induction df as [| [name v] df IH]; cbn [columns map mem_string existsb getitem fst];
    [discriminate |].
  rewrite String.eqb_sym. destruct (String.eqb name c); [now exists v | exact IH].
Qed.

(** X21. A frame with the four columns and no row builds without error, and
    its three tables are empty. *)
Theorem empty_frame_builds (n_min : Z) (df : DataFrame) (dir : directory) :
  getitem df "Contributor Name" = Ok [] ->
  getitem df "Contributor Type" = Ok [] ->
  getitem df "full_address" = Ok [] ->
  getitem df "Amount" = Ok [] ->
  build n_min df = Ok (mk_tables [] [] [])
  /\ run n_min df dir
     = (("top_shared_addresses.csv", TopSharedCsv [])
        :: ("edges.csv", EdgesCsv []) :: ("nodes.csv", NodesCsv []) :: dir, None).
Proof.
  intros Hn Ht Ha Hraw.
  assert (Hload : load df = Ok []).
  { destruct (mem_string "group_id" (columns df)) eqn:Eg.
    - destruct (getitem_of_present df "group_id" Eg) as [gids Egid].
      rewrite (@load_zip df [] [] [] [] [] gids); try assumption; try reflexivity.
      now rewrite Eg.
    - rewrite (@load_zip df [] [] [] [] [] []); try assumption; try reflexivity.
      now rewrite Eg. }
  assert (Hb : build n_min df = Ok (mk_tables [] [] [])).
  { unfold build. rewrite Hload. reflexivity. }
  split; [assumption |]. unfold run. now rewrite Hb.
Qed.

Lemma empty_frame_builds_witness :
  build 2 empty_frame = Ok (mk_tables [] [] [])
  /\ run 2 empty_frame []
     = ([("top_shared_addresses.csv", TopSharedCsv []);
         ("edges.csv", EdgesCsv []); ("nodes.csv", NodesCsv [])], None).
Proof. apply (@empty_frame_builds 2 empty_frame []); reflexivity. Defined.

(** ** The built graph *)

Lemma groupby_key_In {R : Type} (by_ : R -> key) (rows : list R) (r : R) :
  In r rows -> forallb notna (by_ r) = true ->
  In (by_ r, members by_ (by_ r) rows) (groupby by_ rows).
Proof.
  intros Hr Hn. apply groupby_In_iff. cbn [fst snd]. split; [reflexivity |].
  now exists r.
Qed.

(** X22. In the built graph every edge stands for at least one record and
    reaches an address node, whose label is the address of the edge; and it
    leaves a contributor node when every retained record has a name and a
    type. *)
Theorem built_edges_closed (n_min : Z) (rows : list Row.t) (e : Edge.t) :
  In e (build_edges (df_shared n_min rows)) ->
  1 <= Edge.tx_count e
  /\ (exists n, In n (nodes_addr (df_shared n_min rows))
                /\ Node.id n = Edge.target e /\ Node.label n = Edge.address e)
  /\ ((forall s, In s (df_shared n_min rows) -> name_of s <> NaN /\ type_of s <> NaN) ->
      exists n, In n (nodes_contrib (df_shared n_min rows)) /\ Node.id n = Edge.source e).
Proof.
  unfold build_edges. rewrite in_map_iff. intros [g [<- Hg]].
  split; [now apply group_nonempty in Hg |].
  apply groupby_In in Hg. destruct Hg as [_ [s [Hs [Hn Hk]]]].
  rewrite <- Hk in Hn. unfold edge_of. cbn [Edge.source Edge.target Edge.address].
  rewrite <- Hk. unfold by_edge in *. cbn [nth forallb] in *.
  apply andb_true_iff in Hn. destruct Hn as [N1 Hn].
  apply andb_true_iff in Hn. destruct Hn as [N2 Hn].
  apply andb_true_iff in Hn. destruct Hn as [N3 _].
  split.
  - exists (address_node (by_address s, members by_address (by_address s) (df_shared n_min rows))).
    split; [| split; reflexivity].
    apply in_map. apply groupby_key_In; [assumption |].
    unfold by_address. cbn [forallb]. now rewrite N2, N3.
  - intros Hpresent. destruct (Hpresent s Hs) as [P1 P2].
    exists (contributor_node
              (by_contributor s, members by_contributor (by_contributor s) (df_shared n_min rows))).
    split; [| reflexivity].
    apply in_map. apply groupby_key_In; [assumption |].
    unfold by_contributor. cbn [forallb].
    now rewrite N1, (notna_true P1), (notna_true P2).
Qed.

Lemma built_edges_closed_witness :
  1 <= Edge.tx_count alice_at_main_st
  /\ (exists n, In n (nodes_addr (df_shared 2 three_rows))
                /\ Node.id n = Edge.target alice_at_main_st
                /\ Node.label n = Edge.address alice_at_main_st)
  /\ ((forall s, In s (df_shared 2 three_rows) -> name_of s <> NaN /\ type_of s <> NaN) ->
      exists n, In n (nodes_contrib (df_shared 2 three_rows))
                /\ Node.id n = Edge.source alice_at_main_st).
Proof.
  apply (@built_edges_closed 2 three_rows alice_at_main_st).
  vm_compute. left. reflexivity.
Defined.

Lemma contributor_node_kind (n_min : Z) (rows : list Row.t) (n : Node.t) :
  In n (nodes_contrib (df_shared n_min rows)) ->
  Node.type n = Str "contributor" /\ exists x, Node.id n = Str ("person:" ++ x).
Proof.
  unfold nodes_contrib. rewrite in_map_iff. intros [g [<- Hg]].
  split; [reflexivity |].
  apply groupby_In in Hg. destruct Hg as [_ [s [Hs [_ Hk]]]].
  unfold contributor_node. cbn [Node.id]. rewrite <- Hk. cbn [by_contributor nth].
  destruct (df_shared_In _ _ _ Hs) as [names [Hall _]].
  destruct (Hall s Hs) as [_ [E _]]. rewrite E. eauto.
Qed.

Lemma address_node_kind (n_min : Z) (rows : list Row.t) (n : Node.t) :
  In n (nodes_addr (df_shared n_min rows)) ->
  Node.type n = Str "address" /\ exists x, Node.id n = Str ("addr:" ++ x).
Proof.
  unfold nodes_addr. rewrite in_map_iff. intros [g [<- Hg]].
  split; [reflexivity |].
  apply groupby_In in Hg. destruct Hg as [_ [s [Hs [_ Hk]]]].
  unfold address_node. cbn [Node.id]. rewrite <- Hk. cbn [by_address nth].
  destruct (df_shared_In _ _ _ Hs) as [names [Hall _]].
  destruct (Hall s Hs) as [_ [_ E]]. rewrite E. eauto.
Qed.

Lemma edge_kind (n_min : Z) (rows : list Row.t) (e : Edge.t) :
  In e (build_edges (df_shared n_min rows)) ->
  (exists x, Edge.source e = Str ("person:" ++ x))
  /\ (exists x, Edge.target e = Str ("addr:" ++ x)).
Proof.
  unfold build_edges. rewrite in_map_iff. intros [g [<- Hg]].
  apply groupby_In in Hg. destruct Hg as [_ [s [Hs [_ Hk]]]].
  unfold edge_of. cbn [Edge.source Edge.target]. rewrite <- Hk. cbn [by_edge nth].
  destruct (df_shared_In _ _ _ Hs) as [names [Hall _]].
  destruct (Hall s Hs) as [_ [E1 E2]]. rewrite E1, E2. eauto.
Qed.

Lemma person_is_no_addr (x y : string) : Str ("person:" ++ x) <> Str ("addr:" ++ y).
Proof. simpl. discriminate. Qed.

(** X23. On a built graph, whatever the parameters, every edge the filter
    engine shows leaves a shown contributor node and reaches a shown address
    node. *)
Theorem shown_edges_bipartite (n_min : Z) (rows : list Row.t) (p : params) (e : Edge.t) :
  let built_nodes := (nodes_contrib (df_shared n_min rows)
                      ++ nodes_addr (df_shared n_min rows))%list in
  let built_edges := build_edges (df_shared n_min rows) in
  In e (snd (filter_graph p built_nodes built_edges)) ->
  (exists n, In n (fst (filter_graph p built_nodes built_edges))
             /\ is_person n = true /\ Node.id n = Edge.source e)
  /\ (exists n, In n (fst (filter_graph p built_nodes built_edges))
                /\ is_addr n = true /\ Node.id n = Edge.target e).
Proof.
  intros built_nodes built_edges. cbn [filter_graph fst snd]. unfold edges_f.
  rewrite filter_In, andb_true_iff. intros [He [Hs Ht]].
  apply keep_ids_In in Hs, Ht. destruct Hs as [n1 [H1 E1]], Ht as [n2 [H2 E2]].
  destruct (edge_kind _ _ _ He) as [[x Ex] [y Ey]].
  assert (Hkind : forall n, In n (nodes_f p built_nodes built_edges) ->
            (is_person n = true /\ exists z, Node.id n = Str ("person:" ++ z))
            \/ (is_addr n = true /\ exists z, Node.id n = Str ("addr:" ++ z))).
  { intros n Hn. unfold nodes_f in Hn. apply filter_In in Hn. destruct Hn as [Hn _].
    apply filter_In in Hn. destruct Hn as [Hn _]. unfold built_nodes in Hn.
    apply in_app_or in Hn. destruct Hn as [Hn | Hn].
    - left. destruct (contributor_node_kind _ _ _ Hn) as [T I].
      unfold is_person. rewrite T. auto.
    - right. destruct (address_node_kind _ _ _ Hn) as [T I].
      unfold is_addr. rewrite T. auto. }
  split.
  - exists n1. split; [assumption |].
    destruct (Hkind n1 H1) as [[P _] | [_ [z Ez]]]; [tauto |].
    rewrite Ez, Ex in E1. symmetry in E1. now apply person_is_no_addr in E1.
  - exists n2. split; [assumption |].
    destruct (Hkind n2 H2) as [[_ [z Ez]] | [P _]]; [| tauto].
    rewrite Ez, Ey in E2. now apply person_is_no_addr in E2.
Qed.

Lemma shown_edges_bipartite_witness :
  let built_nodes := (nodes_contrib (df_shared 2 three_rows)
                      ++ nodes_addr (df_shared 2 three_rows))%list in
  let built_edges := build_edges (df_shared 2 three_rows) in
  (exists n, In n (fst (filter_graph (mk_params [] 2 (0%float, 200%float))
                          built_nodes built_edges))
             /\ is_person n = true /\ Node.id n = Edge.source alice_at_main_st)
  /\ (exists n, In n (fst (filter_graph (mk_params [] 2 (0%float, 200%float))
                             built_nodes built_edges))
                /\ is_addr n = true /\ Node.id n = Edge.target alice_at_main_st).
Proof.
  apply (@shown_edges_bipartite 2 three_rows (mk_params [] 2 (0%float, 200%float))
           alice_at_main_st).
  vm_compute. left. reflexivity.
Defined.

(** ** Identifiers of the built graph *)

Lemma groupby_keys {R : Type} (by_ : R -> key) (rows : list R) :
  map fst (groupby by_ rows) = group_keys by_ rows.
Proof. unfold groupby. rewrite map_map. cbn [fst]. apply map_id. Qed.

Lemma NoDup_map_on {A B : Type} (f : A -> B) (l : list A) :
  NoDup l -> (forall x y, In x l -> In y l -> f x = f y -> x = y) -> NoDup (map f l).
Proof.
  intros Hnd Hinj. apply NoDup_map_NoDup_ForallPairs; [| assumption].
  intros x y Hx Hy. now apply Hinj.
Qed.

Lemma group_projection_NoDup {R B : Type} (by_ : R -> key) (rows : list R)
    (proj : key -> B) :
  (forall r1 r2, In r1 rows -> In r2 rows ->
     forallb notna (by_ r1) = true -> forallb notna (by_ r2) = true ->
     proj (by_ r1) = proj (by_ r2) -> by_ r1 = by_ r2) ->
  NoDup (map (fun g => proj (fst g)) (groupby by_ rows)).
Proof.
  intros Hinj. rewrite <- (map_map fst proj), groupby_keys.
  apply NoDup_map_on; [apply group_keys_NoDup |].
  intros k1 k2 H1 H2 E. apply group_keys_In in H1, H2.
  destruct H1 as [r1 [R1 [N1 <-]]], H2 as [r2 [R2 [N2 <-]]]. now apply Hinj.
Qed.

(** X24. In the graph built from a frame without a [group_id] column, no two
    address nodes have the same id, no two edges have the same source and
    the same target, and no contributor node has the id of an address node;
    when every name goes with one type, no two nodes at all have the same
    id. *)
Theorem built_ids_unique (n_min : Z) (df : DataFrame) (rows : list Row.t) :
  load df = Ok rows ->
  mem_string "group_id" (columns df) = false ->
  NoDup (map Node.id (nodes_addr (df_shared n_min rows)))
  /\ NoDup (map (fun e => (Edge.source e, Edge.target e))
               (build_edges (df_shared n_min rows)))
  /\ (forall n1 n2, In n1 (nodes_contrib (df_shared n_min rows)) ->
                    In n2 (nodes_addr (df_shared n_min rows)) ->
                    Node.id n1 <> Node.id n2)
  /\ (single_typed (df_shared n_min rows) ->
      NoDup (map Node.id (nodes_contrib (df_shared n_min rows)
                          ++ nodes_addr (df_shared n_min rows)))).
Proof.
  intros Hload Hg. pose proof (load_factorized df Hload Hg) as Hf.
  assert (Haddr : NoDup (map Node.id (nodes_addr (df_shared n_min rows)))).
  { unfold nodes_addr. rewrite map_map.
    apply (group_projection_NoDup by_address (df_shared n_min rows) (fun k => nth 0 k NaN)).
    intros s1 s2 H1 H2 _ _. unfold by_address. cbn [nth]. intros E.
    now rewrite E, (proj1 (@address_id_address n_min rows s1 s2 Hf H1 H2) E). }
  assert (Hdisj : forall n1 n2, In n1 (nodes_contrib (df_shared n_min rows)) ->
                    In n2 (nodes_addr (df_shared n_min rows)) ->
                    Node.id n1 <> Node.id n2).
  { intros n1 n2 H1 H2.
    destruct (contributor_node_kind _ _ _ H1) as [_ [x Ex]].
    destruct (address_node_kind _ _ _ H2) as [_ [y Ey]].
    rewrite Ex, Ey. apply person_is_no_addr. }
  split; [assumption |]. split; [| split; [assumption |]].
  - unfold build_edges. rewrite map_map.
    apply (group_projection_NoDup by_edge (df_shared n_min rows)
             (fun k => (nth 0 k NaN, nth 1 k NaN))).
    intros s1 s2 H1 H2 _ _. unfold by_edge. cbn [nth]. intros E. inversion E as [[E1 E2]].
    now rewrite (proj1 (@address_id_address n_min rows s1 s2 Hf H1 H2) E2).
  - intros Htyped. rewrite map_app. apply NoDup_app; [| assumption |].
    + unfold nodes_contrib. rewrite map_map.
      apply (group_projection_NoDup by_contributor (df_shared n_min rows)
               (fun k => nth 0 k NaN)).
      intros s1 s2 H1 H2 _ _. unfold by_contributor. cbn [nth]. intros E.
      pose proof (proj1 (@contrib_id_name n_min rows s1 s2 H1 H2) E) as En.
      now rewrite E, En, (Htyped s1 s2 H1 H2 En).
    + intros i H1 H2. apply in_map_iff in H1, H2.
      destruct H1 as [n1 [E1 H1]], H2 as [n2 [E2 H2]].
      apply (Hdisj n1 n2 H1 H2). congruence.
Qed.

Lemma built_ids_unique_witness :
  NoDup (map Node.id (nodes_addr (df_shared 2 three_rows)))
  /\ NoDup (map (fun e => (Edge.source e, Edge.target e))
               (build_edges (df_shared 2 three_rows)))
  /\ (forall n1 n2, In n1 (nodes_contrib (df_shared 2 three_rows)) ->
                    In n2 (nodes_addr (df_shared 2 three_rows)) ->
                    Node.id n1 <> Node.id n2)
  /\ (single_typed (df_shared 2 three_rows) ->
      NoDup (map Node.id (nodes_contrib (df_shared 2 three_rows)
                          ++ nodes_addr (df_shared 2 three_rows)))).
Proof.
  apply (@built_ids_unique 2 three_records three_rows).
  - vm_compute. reflexivity.
  - reflexivity.
Defined.

(** ** The top shared addresses of the builder *)

Lemma insert_stat_perm (a : AddrStat.t) (l : list AddrStat.t) :
  Permutation (a :: l) (insert_stat a l).
Proof.
  induction l as [| b l IH]; simpl; [reflexivity |].
  destruct (precedes b a); [| reflexivity].
  rewrite perm_swap. now apply perm_skip.
Qed.

Lemma sort_stats_perm (l : list AddrStat.t) :
  Permutation l (fold_right insert_stat [] l).
Proof.
  induction l as [| a l IH]; simpl; [reflexivity |].
  rewrite <- insert_stat_perm. now apply perm_skip.
Qed.

Lemma precedes_contributors (a b : AddrStat.t) :
  (precedes a b = true -> no_fewer a b)
  /\ (precedes a b = false -> no_fewer b a).
Proof.
  unfold precedes, no_fewer. split.
  - rewrite orb_true_iff, !andb_true_iff, Z.ltb_lt, Z.eqb_eq. lia.
  - rewrite orb_false_iff, Z.ltb_ge. lia.
Qed.

Lemma insert_stat_sorted (a : AddrStat.t) (l : list AddrStat.t) :
  StronglySorted no_fewer l -> StronglySorted no_fewer (insert_stat a l).
Proof.
  induction l as [| b l IH]; intros Hs; simpl.
  - constructor; constructor.
  - inversion Hs as [| b' l' Hs' Hall]; subst.
    destruct (precedes b a) eqn:E.
    + constructor; [now apply IH |].
      apply Forall_forall. intros x Hx.
      apply (Permutation_in _ (Permutation_sym (insert_stat_perm a l))) in Hx.
      destruct Hx as [<- | Hx]; [now apply (proj1 (precedes_contributors b a)) |].
      rewrite Forall_forall in Hall. now apply Hall.
    + apply (proj2 (precedes_contributors b a)) in E. constructor; [assumption |].
      constructor; [assumption |].
      apply Forall_forall. intros x Hx. rewrite Forall_forall in Hall.
      specialize (Hall x Hx). unfold no_fewer in *. lia.
Qed.

(** X25. The table of the top shared addresses holds the statistics of the
    retained groups, each once, by decreasing number of contributors; for a
    frame without a [group_id] column each of its rows has at least [n_min]
    contributors. *)
Theorem top_shared_table (n_min : Z) (rows : list Row.t) :
  Permutation
    (filter (fun a => isin (AddrStat.group_id a)
                        (shared_addr_ids n_min (addr_stats rows))) (addr_stats rows))
    (build_top_shared n_min (addr_stats rows))
  /\ StronglySorted no_fewer (build_top_shared n_min (addr_stats rows))
  /\ (forall df, load df = Ok rows -> mem_string "group_id" (columns df) = false ->
      forall a, In a (build_top_shared n_min (addr_stats rows)) ->
                n_min <= AddrStat.contributors a).
Proof.
  split; [apply sort_stats_perm |]. split.
  - unfold build_top_shared.
    induction (filter _ (addr_stats rows)) as [| a l IH]; simpl;
      [constructor | now apply insert_stat_sorted].
  - intros df Hload Hg a Ha. destruct (load_factorized df Hload Hg) as [addrs Hf].
    apply (Permutation_in _ (Permutation_sym (sort_stats_perm _))) in Ha.
    apply filter_In in Ha. destruct Ha as [Ha Hs].
    apply isin_In in Hs. unfold shared_addr_ids in Hs.
    rewrite unique_In, in_map_iff in Hs. destruct Hs as [b [Eg Hb]].
    apply filter_In in Hb. destruct Hb as [Hb Hn]. apply Z.leb_le in Hn.
    apply addr_stats_In in Ha, Hb.
    destruct Ha as [_ [_ [[r [Hr [G A]]] Sa]]].
    destruct Hb as [_ [_ [[r' [Hr' [G' A']]] Sb]]].
    destruct (Hf r Hr) as [I C]. destruct (Hf r' Hr') as [I' C'].
    assert (Ec : Row.full_address r' = Row.full_address r).
    { apply (@code_of_inj _ _ addrs I' I).
      assert (E : Int (code_of (unique (filter notna addrs)) (Row.full_address r'))
                  = Int (code_of (unique (filter notna addrs)) (Row.full_address r)))
        by congruence.
      now inversion E. }
    assert (Eab : a = b).
    { rewrite Sa, Sb. rewrite <- A, <- A', <- Eg, Ec. reflexivity. }
    now rewrite Eab.
Qed.

(** ** The threshold of the builder under that of the filter *)

Lemma unique_map_first_by {A : Type} (f : A -> cell) (l : list A) :
  unique (map f l) = map f (first_by f l).
Proof.
  induction l as [| a l IH]; cbn [map unique first_by]; [reflexivity |].
  now rewrite IH, filter_map_comm.
Qed.

Lemma first_by_incl {A : Type} (f : A -> cell) (l : list A) (x : A) :
  In x (first_by f l) -> In x l.
Proof.
  induction l as [| a l IH]; cbn [first_by]; [tauto |].
  intros [H | H]; [now left |]. apply filter_In in H. right. now apply IH.
Qed.

Lemma first_by_ext {A : Type} (f g : A -> cell) (l : list A) :
  (forall x y, In x l -> In y l -> (f x = f y <-> g x = g y)) ->
  first_by f l = first_by g l.
Proof.
  induction l as [| a l IH]; intros H; cbn [first_by]; [reflexivity |].
  rewrite <- IH by (intros x y Hx Hy; apply H; now right).
  f_equal. apply filter_ext_in. intros x Hx. apply first_by_incl in Hx.
  f_equal. specialize (H x a (or_intror Hx) (or_introl eq_refl)).
  destruct (cell_eqb (f x) (f a)) eqn:E1, (cell_eqb (g x) (g a)) eqn:E2;
    try reflexivity.
  - apply cell_eqb_eq in E1. apply H in E1. apply cell_eqb_neq in E2. contradiction.
  - apply cell_eqb_eq in E2. apply H in E2. apply cell_eqb_neq in E1. contradiction.
Qed.

Lemma count_unique_map {A : Type} (f g : A -> cell) (l : list A) :
  (forall x y, In x l -> In y l -> (f x = f y <-> g x = g y)) ->
  count (unique (map f l)) = count (unique (map g l)).
Proof.
  intros H. rewrite !unique_map_first_by, (first_by_ext f g l H).
  unfold count. now rewrite !length_map.
Qed.

Lemma count_unique_same (l1 l2 : list cell) :
  (forall c, In c l1 <-> In c l2) -> count (unique l1) = count (unique l2).
Proof.
  intros H. unfold count. f_equal. apply Permutation_length.
  apply NoDup_Permutation; try apply unique_NoDup.
  intros c. rewrite !unique_In. apply H.
Qed.

Section Floor.
Variable n_min : Z.
Variable rows : list Row.t.
Hypothesis groups_of_addresses : factorized rows.

Local Abbreviation shared := (df_shared n_min rows).

(** The sources of the edges that reach an address are the contributor
    identifiers of the retained records of that address. *)
Lemma sources_of_address (aid c : cell) :
  In c (filter notna (map Edge.source
          (filter (fun e => cell_eqb (Edge.target e) aid) (build_edges shared))))
  <-> In c (map Shared.contrib_id
              (filter (fun s => cell_eqb (Shared.address_id s) aid) shared)).
Proof.
  rewrite filter_In, !in_map_iff. split.
  - intros [[e [<- He]] _]. apply filter_In in He. destruct He as [He Ht].
    unfold build_edges in He. apply in_map_iff in He. destruct He as [g [<- Hg]].
    apply groupby_In in Hg. destruct Hg as [_ [s [Hs [_ Hk]]]].
    unfold edge_of in *. cbn [Edge.source Edge.target] in *. rewrite <- Hk in *.
    cbn [by_edge nth] in *. exists s. split; [reflexivity |].
    apply filter_In. now split.
  - intros [s [<- Hs]]. apply filter_In in Hs. destruct Hs as [Hs Ht]. split.
    + exists (edge_of (by_edge s, members by_edge (by_edge s) shared)).
      split; [reflexivity |]. apply filter_In. split; [| exact Ht].
      apply in_map. apply groupby_key_In; [assumption |].
      unfold by_edge. cbn [forallb].
      now rewrite (notna_true (@contrib_id_present n_min rows s Hs)),
                  (notna_true (@address_id_present n_min rows s Hs)),
                  (notna_true (@shared_address_present n_min rows s groups_of_addresses Hs)).
    + apply notna_true. now apply (@contrib_id_present n_min rows).
Qed.

(** The retained records of an address are the records of its group. *)
Lemma records_of_address (s0 : Shared.t) :
  In s0 shared ->
  map name_of (filter (fun s => cell_eqb (Shared.address_id s) (Shared.address_id s0)) shared)
  = map Row.Contributor_Name
      (filter (fun r => cell_eqb (Row.group_id r) (Row.group_id (Shared.row s0))
                        && cell_eqb (Row.full_address r) (addr_of s0)) rows).
Proof.
  intros H0. destruct groups_of_addresses as [addrs Hf].
  destruct (df_shared_In _ _ _ H0) as [names [Hall [R0 G0]]].
  assert (Hmap : map name_of (filter (fun s => cell_eqb (Shared.address_id s)
                                                 (Shared.address_id s0)) shared)
                 = map Row.Contributor_Name
                     (filter (fun r => cell_eqb (Str ("addr:" ++ group_text (floating rows)
                                                                  (Row.group_id r)))
                                                (Shared.address_id s0))
                             (map Shared.row shared))).
  { rewrite filter_map_comm, map_map. unfold name_of.
    f_equal. apply filter_ext_in. intros s Hs.
    destruct (Hall s Hs) as [_ [_ E]]. now rewrite E. }
  rewrite Hmap, df_shared_rows, filter_filter. f_equal.
  apply filter_ext_in. intros r Hr.
  destruct (Hall s0 H0) as [_ [_ E0]]. rewrite E0.
  destruct (Hf r Hr) as [A G]. destruct (Hf _ R0) as [A0 G0'].
  unfold addr_of.
  rewrite G, G0', (factorized_not_floating (ex_intro _ addrs Hf)). cbn [group_text].
  destruct (cell_eqb (Int _) (Int _)) eqn:E.
  - apply cell_eqb_eq in E. inversion E as [Ec].
    assert (Hin : isin (Row.group_id r) (shared_addr_ids n_min (addr_stats rows)) = true).
    { apply isin_In. rewrite G, Ec, <- G0'. exact G0. }
    rewrite G in Hin. rewrite Hin. rewrite Ec, !cell_eqb_refl. cbn [andb].
    apply (code_of_inj _ _ _ A A0) in Ec. now rewrite Ec, cell_eqb_refl.
  - cbn [andb]. rewrite andb_false_iff. right.
    apply cell_eqb_neq. apply cell_eqb_neq in E. intros E'. apply E.
    inversion E' as [E'']. apply str_of_Z_inj in E''. now rewrite E''.
Qed.

Lemma built_address_kept (m : Z) (n : Node.t) :
  m <= n_min -> In n (nodes_addr shared) ->
  In (Node.id n) (addr_keep m (build_edges shared)).
Proof.
  intros Hm Hn. unfold nodes_addr in Hn. apply in_map_iff in Hn.
  destruct Hn as [g [<- Hg]]. apply groupby_In in Hg.
  destruct Hg as [_ [s0 [H0 [_ Hk]]]].
  unfold address_node. cbn [Node.id]. rewrite <- Hk. cbn [by_address nth].
  apply addr_keep_In_iff. split; [now apply (@address_id_present n_min rows) |]. split.
  - exists (edge_of (by_edge s0, members by_edge (by_edge s0) shared)).
    split; [| reflexivity]. apply in_map. apply groupby_key_In; [assumption |].
    unfold by_edge. cbn [forallb].
    now rewrite (notna_true (@contrib_id_present n_min rows s0 H0)),
                (notna_true (@address_id_present n_min rows s0 H0)),
                (notna_true (@shared_address_present n_min rows s0 groups_of_addresses H0)).
  - unfold distinct_sources.
    rewrite (count_unique_same _ _ (sources_of_address (Shared.address_id s0))).
    rewrite (count_unique_map Shared.contrib_id name_of).
    + rewrite (records_of_address s0 H0).
      destruct (df_shared_In _ _ _ H0) as [_ [_ [_ G0]]].
      apply shared_addr_ids_In_iff in G0. destruct G0 as [_ [a [Ha [[r [Hr [Eg Ea]]] Hn]]]].
      destruct groups_of_addresses as [addrs Hf].
      destruct (df_shared_In _ _ _ H0) as [_ [_ [R0 _]]].
      destruct (Hf r Hr) as [A G]. destruct (Hf _ R0) as [A0 G0'].
      assert (Ec : Row.full_address r = addr_of s0).
      { apply (@code_of_inj _ _ addrs A A0).
        assert (E : Int (code_of (unique (filter notna addrs)) (Row.full_address r))
                    = Int (code_of (unique (filter notna addrs))
                             (Row.full_address (Shared.row s0)))) by congruence.
        now inversion E. }
      unfold distinct_names in Hn. rewrite <- Ea, Ec in Hn. lia.
    + intros x y Hx Hy. apply filter_In in Hx, Hy.
      apply (@contrib_id_name n_min rows); tauto.
Qed.

End Floor.

(** X26. The threshold of the builder is a floor for that of the filter
    engine: on the graph built from a frame without a [group_id] column, a
    runtime threshold at or below the build threshold keeps every address
    node whose total lies in the range. *)
Theorem build_threshold_is_floor (n_min : Z) (df : DataFrame) (rows : list Row.t)
    (p : params) (n : Node.t) :
  load df = Ok rows ->
  mem_string "group_id" (columns df) = false ->
  min_contribs p <= n_min ->
  In n (nodes_addr (df_shared n_min rows)) ->
  between (fst (sel_amt p)) (snd (sel_amt p)) (Node.total_amount n) = true ->
  In n (fst (filter_graph p
              (nodes_contrib (df_shared n_min rows) ++ nodes_addr (df_shared n_min rows))
              (build_edges (df_shared n_min rows)))).
Proof.
  intros Hload Hg Hm Hn Hb. pose proof (load_factorized df Hload Hg) as Hf.
  cbn [filter_graph fst]. unfold nodes_f. rewrite !filter_In.
  split; [split |]; [apply in_or_app; now right | | assumption].
  apply orb_true_iff. left. apply andb_true_iff. split.
  - destruct (address_node_kind _ _ _ Hn) as [T _]. unfold is_addr. now rewrite T.
  - apply isin_In. now apply built_address_kept.
Qed.

Lemma build_threshold_is_floor_witness :
  In main_st (fst (filter_graph (mk_params [] 2 (0%float, 200%float))
                     (nodes_contrib (df_shared 2 three_rows)
                      ++ nodes_addr (df_shared 2 three_rows))
                     (build_edges (df_shared 2 three_rows)))).
Proof.
  apply (@build_threshold_is_floor 2 three_records three_rows
           (mk_params [] 2 (0%float, 200%float)) main_st).
  - vm_compute. reflexivity.
  - reflexivity.
  - vm_compute. discriminate.
  - vm_compute. left. reflexivity.
  - vm_compute. reflexivity.
Defined.

(** ** Every retained record is counted once *)

Lemma groups_count {R : Type} (by_ : R -> key) (rows : list R) :
  sum_Z (map (fun g => count (snd g)) (groupby by_ rows)) = count (present by_ rows).
Proof.
  rewrite <- count_concat.
  pose proof (groupby_partition by_ (fun _ => true) rows) as H.
  rewrite (filter_all (fun _ : R => true)) in H by reflexivity.
  rewrite (filter_all (fun _ : key * list R => true)) in H by reflexivity.
  unfold count. now rewrite (Permutation_length H).
Qed.

(** X27. In the graph built from a frame without a [group_id] column every
    retained record is counted in one edge and at one address node: the
    transaction counts of the edges, and those of the address nodes, add up
    to the number of retained records.  So do those of the contributor nodes
    when every retained record has a name and a type. *)
Theorem records_counted_once (n_min : Z) (df : DataFrame) (rows : list Row.t) :
  load df = Ok rows ->
  mem_string "group_id" (columns df) = false ->
  sum_Z (map Edge.tx_count (build_edges (df_shared n_min rows)))
  = count (df_shared n_min rows)
  /\ sum_Z (map Node.tx_count (nodes_addr (df_shared n_min rows)))
     = count (df_shared n_min rows)
  /\ ((forall s, In s (df_shared n_min rows) -> name_of s <> NaN /\ type_of s <> NaN) ->
      sum_Z (map Node.tx_count (nodes_contrib (df_shared n_min rows)))
      = count (df_shared n_min rows)).
Proof.
  intros Hload Hg. pose proof (load_factorized df Hload Hg) as Hf.
  split; [| split].
  - unfold build_edges. rewrite map_map. cbn [edge_of Edge.tx_count].
    now rewrite groups_count, (@present_by_edge n_min rows Hf).
  - unfold nodes_addr. rewrite map_map. cbn [address_node Node.tx_count].
    rewrite groups_count. unfold present. rewrite filter_all; [reflexivity |].
    intros s Hs. unfold by_address. cbn [forallb].
    now rewrite (notna_true (@address_id_present n_min rows s Hs)),
                (notna_true (@shared_address_present n_min rows s Hf Hs)).
  - intros Hpresent. unfold nodes_contrib. rewrite map_map.
    cbn [contributor_node Node.tx_count].
    rewrite groups_count. unfold present. rewrite filter_all; [reflexivity |].
    intros s Hs. destruct (Hpresent s Hs) as [P1 P2]. unfold by_contributor. cbn [forallb].
    now rewrite (notna_true (@contrib_id_present n_min rows s Hs)),
                (notna_true P1), (notna_true P2).
Qed.

Lemma records_counted_once_witness :
  sum_Z (map Edge.tx_count (build_edges (df_shared 2 three_rows)))
  = count (df_shared 2 three_rows)
  /\ sum_Z (map Node.tx_count (nodes_addr (df_shared 2 three_rows)))
     = count (df_shared 2 three_rows)
  /\ ((forall s, In s (df_shared 2 three_rows) -> name_of s <> NaN /\ type_of s <> NaN) ->
      sum_Z (map Node.tx_count (nodes_contrib (df_shared 2 three_rows)))
      = count (df_shared 2 three_rows)).
Proof.
  apply (@records_counted_once 2 three_records three_rows).
  - vm_compute. reflexivity.
  - reflexivity.
Defined.
